(** * Peterson's two-process lock with timeout, statistics and a protected counter

    A shallow embedding of [optimised_peterson_algorithm.py].

    The file has two layers.

    - A call-level layer: every method of [PetersonLock] and [SharedResource]
      is a computation in a small monad that threads the object, reads the
      wall clock from a tape of readings, may raise a Python exception, and
      records the shared-memory accesses it performs, in program order.
      A call is run on its own here: nothing else writes the object while it
      runs.
    - A thread-level layer: the two worker threads of the driver as a
      transition system, one transition per access to shared memory, with all
      interleavings of the two threads.

    The plain variant of the algorithm, [peterson-algorithm.py], is embedded
    the same way in [Module Basic].

    Python's [float] is idealised as [Q]; Python's [int] is [Z]. *)

From Stdlib Require Import ZArith QArith Lia String.
From stdpp Require Import base option list gmap.

Local Open Scope Z_scope.

(** ** Python values and exceptions *)

(** The [amount] argument of [increment]: an [int], or something that [int]'s
    [+] rejects. *)
Inductive pyval : Type :=
| PyInt (n : Z)
| PyNone.

(** The source has one exception class, [PetersonError], raised at four places
    with four messages; the first four constructors are these four uses.
    - [InvalidProcessId p]: "Invalid process ID: p. Must be 0 or 1."
    - [LockTimeout p]: "Process p timed out waiting for lock"
    - [LockAcquisitionFailure e]: "Lock acquisition failed: str(e)"
    - [LockReleaseFailure e]: "Lock release failed: str(e)"
    The last four are Python built-ins, which are not [PetersonError]s. *)
Inductive exn : Type :=
| InvalidProcessId (process_id : Z)
| LockTimeout (process_id : Z)
| LockAcquisitionFailure (cause : exn)
| LockReleaseFailure (cause : exn)
| IndexError
| KeyError
| TypeError
| ValueError.

Definition is_PetersonError (e : exn) : bool :=
  match e with
  | InvalidProcessId _ | LockTimeout _
  | LockAcquisitionFailure _ | LockReleaseFailure _ => true
  | IndexError | KeyError | TypeError | ValueError => false
  end.

Inductive result (A : Type) : Type :=
| Return (a : A)
| Raise (e : exn).
Arguments Return {A} a.
Arguments Raise {A} e.

(** ** Data model *)

Record ProcessStats : Type := mkProcessStats {
  entries : Z;
  wait_time : Q;
  fails : Z
}.

Record StatsView : Type := mkStatsView {
  view_entries : Z;
  avg_wait_time : Q;
  view_fails : Z
}.

Record LogEntry : Type := mkLogEntry {
  log_process_id : Z;
  log_operation : string;
  log_amount : pyval;
  log_timestamp : Q;
  log_duration : Q
}.

(** Accesses to shared memory and suspensions, as a call performs them. *)
Inductive event : Type :=
| EvSetFlag (i : Z) (b : bool)
| EvGetFlag (i : Z) (b : bool)
| EvSetTurn (t : Z)
| EvGetTurn (t : Z)
| EvSleep (d : Q)
| EvGetValue (v : Z)
| EvSetValue (v : Z)
| EvAppendLog (e : LogEntry).

(** ** The monad of calls *)

(** What a call runs in: the object it is a method of, the readings the wall
    clock will give, and the accesses performed so far. *)
Record World (S : Type) : Type := mkWorld {
  obj : S;
  clock : list Q;
  trace : list event
}.
Arguments mkWorld {S} obj clock trace.
Arguments obj {S} w.
Arguments clock {S} w.
Arguments trace {S} w.

(** [None]: the clock tape ended before the call did. *)
Definition M (S A : Type) : Type := World S → option (result A * World S).

Section Monad.
Context {S : Type}.

Definition ret {A} (a : A) : M S A := λ w, Some (Return a, w).

Definition raise {A} (e : exn) : M S A := λ w, Some (Raise e, w).

Definition bind {A B} (m : M S A) (k : A → M S B) : M S B :=
  λ w, match m w with
       | None => None
       | Some (Return a, w') => k a w'
       | Some (Raise e, w') => Some (Raise e, w')
       end.

(** [try: m  except Exception as e: h e] *)
Definition try_except {A} (m : M S A) (h : exn → M S A) : M S A :=
  λ w, match m w with
       | None => None
       | Some (Return a, w') => Some (Return a, w')
       | Some (Raise e, w') => h e w'
       end.

(** [try: m  except PetersonError as e: h e]: other exceptions pass. *)
Definition try_except_PetersonError {A} (m : M S A) (h : exn → M S A)
  : M S A :=
  try_except m (λ e, if is_PetersonError e then h e else raise e).

(** [try: m  finally: f]. [f] runs on every exit of [m]; an exception of
    [f] replaces the outcome of [m], otherwise the outcome of [m] stands. *)
Definition try_finally {A} (m : M S A) (f : M S unit) : M S A :=
  λ w, match m w with
       | None => None
       | Some (r, w') =>
           match f w' with
           | None => None
           | Some (Return _, w'') => Some (r, w'')
           | Some (Raise e, w'') => Some (Raise e, w'')
           end
       end.

(** The model has no answer: the clock tape is used up. *)
Definition stuck {A} : M S A := λ _, None.

Definition gets {A} (f : S → A) : M S A := λ w, Some (Return (f (obj w)), w).

Definition modify (f : S → S) : M S unit :=
  λ w, Some (Return tt, mkWorld (f (obj w)) (clock w) (trace w)).

Definition emit (e : event) : M S unit :=
  λ w, Some (Return tt, mkWorld (obj w) (clock w) (trace w ++ [e])).

(** [time.time()] *)
Definition time_time : M S Q :=
  λ w, match clock w with
       | [] => None
       | t :: ts => Some (Return t, mkWorld (obj w) ts (trace w))
       end.

(** [time.sleep(d)]. A negative [d] raises [ValueError] ("sleep length must
    be non-negative"); otherwise the call suspends the caller and returns. *)
Definition time_sleep (d : Q) : M S unit :=
  if Qle_bool 0 d then emit (EvSleep d) else raise ValueError.

(** A bound on the polls a loop can still make: each poll that does not
    leave the loop takes one reading of the clock. *)
Definition polls_left : M S nat := λ w, Some (Return (length (clock w)), w).
End Monad.

#[global] Instance M_ret {S} : MRet (M S) := @ret S.
#[global] Instance M_bind {S} : MBind (M S) := λ A B k m, bind m k.

(** Run a method of a part of an object on the whole object. *)
Definition zoom {S T A} (get : T → S) (set : S → T → T) (m : M S A) : M T A :=
  λ w, match m (mkWorld (get (obj w)) (clock w) (trace w)) with
       | None => None
       | Some (r, w') =>
           Some (r, mkWorld (set (obj w') (obj w)) (clock w') (trace w'))
       end.

(** Python's [l[i]]: a negative index counts from the end. *)
Definition py_index {A} (l : list A) (i : Z) : option nat :=
  let n := Z.of_nat (length l) in
  if (0 <=? i) && (i <? n) then Some (Z.to_nat i)
  else if (- n <=? i) && (i <? 0) then Some (Z.to_nat (n + i))
  else None.

(** Python's [x in l] on a list of integers. *)
Definition py_in (x : Z) (l : list Z) : bool := existsb (Z.eqb x) l.

Definition Qgt_bool (a b : Q) : bool := negb (Qle_bool a b).

Arguments Qgt_bool : simpl never.
Arguments Qle_bool : simpl never.
Arguments Qminus : simpl never.
Arguments Qplus : simpl never.
Arguments Qdiv : simpl never.

(** ** [class PetersonLock] *)

Module PetersonLock.

Record t : Type := mk {
  flag : list bool;
  turn : Z;
  stats : gmap Z ProcessStats;
  _lock_timeout : Q
}.

(** [__init__] *)
Definition init : t :=
  {| flag := [false; false];
     turn := 0;
     stats := {[ 0 := mkProcessStats 0 0 0; 1 := mkProcessStats 0 0 0 ]};
     _lock_timeout := 5 |}.

Definition with_flag (l : list bool) (s : t) : t :=
  mk l (turn s) (stats s) (_lock_timeout s).
Definition with_turn (x : Z) (s : t) : t :=
  mk (flag s) x (stats s) (_lock_timeout s).
Definition with_stats (m : gmap Z ProcessStats) (s : t) : t :=
  mk (flag s) (turn s) m (_lock_timeout s).

(** [self.flag[i] = b] *)
Definition set_flag (i : Z) (b : bool) : M t unit :=
  l ← gets flag;
  match py_index l i with
  | None => raise IndexError
  | Some k => modify (with_flag (<[k := b]> l));; emit (EvSetFlag i b)
  end.

(** [self.flag[i]] *)
Definition get_flag (i : Z) : M t bool :=
  l ← gets flag;
  match py_index l i ≫= λ k, l !! k with
  | None => raise IndexError
  | Some b => emit (EvGetFlag i b);; mret b
  end.

(** [self.turn = x] *)
Definition set_turn (x : Z) : M t unit :=
  modify (with_turn x);; emit (EvSetTurn x).

(** [self.turn] *)
Definition get_turn : M t Z :=
  x ← gets turn; emit (EvGetTurn x);; mret x.

(** [self.stats[i].field op= ...] *)
Definition update_stats (i : Z) (f : ProcessStats → ProcessStats)
  : M t unit :=
  m ← gets stats;
  match m !! i with
  | None => raise KeyError
  | Some ps => modify (with_stats (<[i := f ps]> m))
  end.

(** Lines 44-49: the wait loop. Every poll that goes on has taken a reading
    from the clock tape, so with [polls] at least the number of readings left
    the tape ends before [polls] does. *)
Fixpoint wait_loop (polls : nat) (process_id other : Z) (start_time : Q)
  : M t unit :=
  f ← get_flag other;
  c ← (if f : bool then x ← get_turn; mret (x =? other)
       else mret false);
  if c : bool then
    now ← time_time;
    limit ← gets _lock_timeout;
    if Qgt_bool (now - start_time) limit then
      set_flag process_id false;;
      update_stats process_id
        (λ ps, mkProcessStats (entries ps) (wait_time ps) (fails ps + 1));;
      raise (LockTimeout process_id)
    else
      time_sleep (1 # 100);;
      match polls with
      | O => stuck
      | Datatypes.S n => wait_loop n process_id other start_time
      end
  else mret tt.

(** [def lock(self, process_id)] *)
Definition lock (process_id : Z) : M t bool :=
  if negb (py_in process_id [0; 1]) then
    raise (InvalidProcessId process_id)
  else
    let other := 1 - process_id in
    start_time ← time_time;
    try_except
      (set_flag process_id true;;
       set_turn other;;
       polls ← polls_left;
       wait_loop polls process_id other start_time;;
       update_stats process_id
         (λ ps, mkProcessStats (entries ps + 1) (wait_time ps) (fails ps));;
       now ← time_time;
       update_stats process_id
         (λ ps, mkProcessStats (entries ps)
                               (wait_time ps + (now - start_time))
                               (fails ps));;
       mret true)
      (λ e, set_flag process_id false;;
            raise (LockAcquisitionFailure e)).

(** [def unlock(self, process_id)] *)
Definition unlock (process_id : Z) : M t unit :=
  if negb (py_in process_id [0; 1]) then
    raise (InvalidProcessId process_id)
  else
    try_except
      (set_flag process_id false)
      (λ e, raise (LockReleaseFailure e)).

(** One value of the dictionary [get_stats] returns. *)
Definition view (ps : ProcessStats) : StatsView :=
  {| view_entries := entries ps;
     avg_wait_time := if entries ps >? 0
                      then wait_time ps / inject_Z (entries ps)
                      else 0;
     view_fails := fails ps |}.

(** [def get_stats(self)]. The key "Process_pid" is represented by [pid]. *)
Definition get_stats : M t (gmap Z StatsView) :=
  m ← gets stats; mret (view <$> m).

End PetersonLock.

(** [current + amount] on an [int] [current]. *)
Definition py_add {S} (current : Z) (amount : pyval) : M S Z :=
  match amount with
  | PyInt n => mret (current + n)
  | PyNone => raise TypeError
  end.

(** ** [class SharedResource] *)

Module SharedResource.

Record t : Type := mk {
  value : Z;
  lock : PetersonLock.t;
  access_log : list LogEntry
}.

(** [__init__] *)
Definition init : t :=
  {| value := 0; lock := PetersonLock.init; access_log := [] |}.

Definition with_value (v : Z) (r : t) : t := mk v (lock r) (access_log r).
Definition with_lock (l : PetersonLock.t) (r : t) : t :=
  mk (value r) l (access_log r).
Definition with_access_log (l : list LogEntry) (r : t) : t :=
  mk (value r) (lock r) l.

(** [self.lock.m(...)] *)
Definition on_lock {A} (m : M PetersonLock.t A) : M t A :=
  zoom lock with_lock m.

(** [self.value] *)
Definition get_value : M t Z :=
  v ← gets value; emit (EvGetValue v);; mret v.

(** [self.value = v] *)
Definition set_value (v : Z) : M t unit :=
  modify (with_value v);; emit (EvSetValue v).

(** [self.access_log.append(e)] *)
Definition append_log (e : LogEntry) : M t unit :=
  modify (λ r, with_access_log (access_log r ++ [e]) r);;
  emit (EvAppendLog e).

(** [def increment(self, process_id, amount)] *)
Definition increment (process_id : Z) (amount : pyval) : M t unit :=
  try_finally
    (try_except_PetersonError
       (start_time ← time_time;
        on_lock (PetersonLock.lock process_id);;
        current ← get_value;
        time_sleep (1 # 10);;
        new ← py_add current amount;
        set_value new;;
        timestamp ← time_time;
        now ← time_time;
        append_log
          (mkLogEntry process_id "increment" amount timestamp
                      (now - start_time));;
        mret tt)
       (λ e, raise e))
    (on_lock (PetersonLock.unlock process_id)).

(** [increment(process_id)]: [amount] defaults to [1]. *)
Definition increment_default (process_id : Z) : M t unit :=
  increment process_id (PyInt 1).

End SharedResource.

(** ** Calls in sequence *)

(** A call on a [SharedResource] or on its lock. *)
Inductive call : Type :=
| CallIncrement (process_id : Z) (amount : pyval)
| CallLock (process_id : Z)
| CallUnlock (process_id : Z)
| CallGetStats.

Definition discard {S A} (m : M S A) : M S unit := m ≫= λ _, mret tt.

Definition run_call (c : call) : M SharedResource.t unit :=
  match c with
  | CallIncrement p a => SharedResource.increment p a
  | CallLock p => discard (SharedResource.on_lock (PetersonLock.lock p))
  | CallUnlock p => SharedResource.on_lock (PetersonLock.unlock p)
  | CallGetStats => discard (SharedResource.on_lock PetersonLock.get_stats)
  end.

(** The calls one after the other; like the driver's [run_test_case], a caller
    that catches the exception of a call and goes on with the next. *)
Fixpoint run_calls (cs : list call) : M SharedResource.t unit :=
  match cs with
  | [] => mret tt
  | c :: cs => try_except (run_call c) (λ _, mret tt);; run_calls cs
  end.

(** The acquisitions identity [p] attempts in a sequence of calls. *)
Definition is_attempt (p : Z) (c : call) : bool :=
  match c with
  | CallIncrement q _ | CallLock q => p =? q
  | CallUnlock _ | CallGetStats => false
  end.

Fixpoint attempts (p : Z) (cs : list call) : Z :=
  match cs with
  | [] => 0
  | c :: cs => (if is_attempt p c then 1 else 0) + attempts p cs
  end.

(** [def run_test_case(shared_resource, process_id, operations, delay)] *)
Fixpoint run_test_case (process_id : Z) (operations : list pyval) (delay : Q)
  : M SharedResource.t unit :=
  match operations with
  | [] => mret tt
  | op :: operations =>
      try_except_PetersonError
        (SharedResource.increment process_id op;; time_sleep delay)
        (λ _, mret tt);;
      run_test_case process_id operations delay
  end.

(** Increments one after the other, stopping at the first that fails. *)
Fixpoint run_increments (cs : list (Z * Z)) : M SharedResource.t unit :=
  match cs with
  | [] => mret tt
  | (p, a) :: cs => SharedResource.increment p (PyInt a);; run_increments cs
  end.

(** [l] is [l0] and [l1] shuffled together, each in its own order. *)
Inductive Interleave {A} : list A → list A → list A → Prop :=
| Interleave_nil : Interleave [] [] []
| Interleave_left x l0 l1 l :
    Interleave l0 l1 l → Interleave (x :: l0) l1 (x :: l)
| Interleave_right x l0 l1 l :
    Interleave l0 l1 l → Interleave l0 (x :: l1) (x :: l).

Fixpoint sum_list (l : list Z) : Z :=
  match l with
  | [] => 0
  | x :: l => x + sum_list l
  end.

(** ** The two worker threads *)

(** The driver starts two threads on one [SharedResource]; thread [p] runs
    [run_test_case(shared_resource, p, operations)], with the default [delay]
    of 0.2 s, so that no sleep of a thread raises. A thread is a program
    counter with its local variables; a transition is the execution of the
    program up to and including its next access to shared memory (CPython runs
    one thread at a time and switches between bytecodes, so every read and
    every write of a shared cell is one indivisible step, and the two reads of
    the loop condition at line 44 are two steps). The program counters are
    named after the source lines.

    The configuration starts from [__init__], where [flag] has two cells and
    [stats] two keys, and the identities are 0 and 1: the branches to
    [InvalidProcessId], [IndexError] and [KeyError] of the calls are not
    reachable and are left out. *)

Module Threads.

Inductive pc : Type :=
| Idle              (* [for op in operations:] *)
| L89               (* [start_time = time.time()] of [increment] *)
| L37               (* [start_time = time.time()] of [lock] *)
| L40               (* [self.flag[process_id] = True] *)
| L41               (* [self.turn = other] *)
| L44_flag          (* [while self.flag[other] ...] *)
| L44_turn          (* [... and self.turn == other:] *)
| L45               (* [if time.time() - start_time > self._lock_timeout:] *)
| L46               (* [self.flag[process_id] = False] *)
| L47               (* [self.stats[process_id].fails += 1], [raise] *)
| L49               (* [time.sleep(0.01)] *)
| L51               (* [self.stats[process_id].entries += 1] *)
| L52               (* [self.stats[process_id].wait_time += ...], [return] *)
| L56               (* [except]: [self.flag[process_id] = False], [raise] *)
| L93               (* [current = self.value] *)
| L94               (* [time.sleep(0.1)] *)
| L95               (* [self.value = current + amount] *)
| L102              (* ['timestamp': time.time()] *)
| L103              (* ['duration': time.time() - start_time], [append] *)
| L112 (raised : bool)  (* [finally: self.lock.unlock(process_id)] *)
| L120              (* [time.sleep(delay)] *)
| Done.

Record thread : Type := mkThread {
  at_pc : pc;
  operations : list Z;
  amount : Z;
  increment_start : Q;
  lock_start : Q;
  current : Z;
  timestamp : Q
}.

Definition goto (p : pc) (th : thread) : thread :=
  mkThread p (operations th) (amount th) (increment_start th)
           (lock_start th) (current th) (timestamp th).

Definition on_flag (f : list bool → list bool) (r : SharedResource.t)
  : SharedResource.t :=
  SharedResource.with_lock
    (PetersonLock.with_flag (f (PetersonLock.flag (SharedResource.lock r)))
                            (SharedResource.lock r)) r.

Definition on_stats (p : Z) (f : ProcessStats → ProcessStats)
    (r : SharedResource.t) : SharedResource.t :=
  SharedResource.with_lock
    (PetersonLock.with_stats
       (alter f p (PetersonLock.stats (SharedResource.lock r)))
       (SharedResource.lock r)) r.

(** One transition of thread [p]; [now] is what the clock reads if the
    transition reads it. *)
Definition thread_step (p : Z) (now : Q) (th : thread)
    (r : SharedResource.t) : thread * SharedResource.t :=
  let other := 1 - p in
  let l := SharedResource.lock r in
  match at_pc th with
  | Idle =>
      match operations th with
      | [] => (goto Done th, r)
      | op :: ops =>
          (mkThread L89 ops op (increment_start th) (lock_start th)
                    (current th) (timestamp th), r)
      end
  | L89 =>
      (mkThread L37 (operations th) (amount th) now (lock_start th)
                (current th) (timestamp th), r)
  | L37 =>
      (mkThread L40 (operations th) (amount th) (increment_start th) now
                (current th) (timestamp th), r)
  | L40 => (goto L41 th, on_flag (<[Z.to_nat p := true]>) r)
  | L41 =>
      (goto L44_flag th,
       SharedResource.with_lock (PetersonLock.with_turn other l) r)
  | L44_flag =>
      if default false (PetersonLock.flag l !! Z.to_nat other)
      then (goto L44_turn th, r) else (goto L51 th, r)
  | L44_turn =>
      if PetersonLock.turn l =? other
      then (goto L45 th, r) else (goto L51 th, r)
  | L45 =>
      if Qgt_bool (now - lock_start th) (PetersonLock._lock_timeout l)
      then (goto L46 th, r) else (goto L49 th, r)
  | L46 => (goto L47 th, on_flag (<[Z.to_nat p := false]>) r)
  | L47 =>
      (goto L56 th,
       on_stats p (λ ps, mkProcessStats (entries ps) (wait_time ps)
                                        (fails ps + 1)) r)
  | L49 => (goto L44_flag th, r)
  | L51 =>
      (goto L52 th,
       on_stats p (λ ps, mkProcessStats (entries ps + 1) (wait_time ps)
                                        (fails ps)) r)
  | L52 =>
      (goto L93 th,
       on_stats p (λ ps, mkProcessStats (entries ps)
                           (wait_time ps + (now - lock_start th))
                           (fails ps)) r)
  | L56 => (goto (L112 true) th, on_flag (<[Z.to_nat p := false]>) r)
  | L93 =>
      (mkThread L94 (operations th) (amount th) (increment_start th)
                (lock_start th) (SharedResource.value r) (timestamp th), r)
  | L94 => (goto L95 th, r)
  | L95 =>
      (goto L102 th, SharedResource.with_value (current th + amount th) r)
  | L102 =>
      (mkThread L103 (operations th) (amount th) (increment_start th)
                (lock_start th) (current th) now, r)
  | L103 =>
      (goto (L112 false) th,
       SharedResource.with_access_log
         (SharedResource.access_log r ++
            [mkLogEntry p "increment" (PyInt (amount th)) (timestamp th)
                        (now - increment_start th)]) r)
  | L112 raised =>
      (goto (if raised then Idle else L120) th,
       on_flag (<[Z.to_nat p := false]>) r)
  | L120 => (goto Idle th, r)
  | Done => (th, r)
  end.

(** Thread [p] alone, one transition per reading. *)
Definition thread_run (p : Z) (readings : list Q) (th : thread)
    (r : SharedResource.t) : thread * SharedResource.t :=
  foldl (λ '(th, r) now, thread_step p now th r) (th, r) readings.

Record config : Type := mkConfig {
  shared : SharedResource.t;
  thread0 : thread;
  thread1 : thread
}.

Definition start (operations : list Z) : thread :=
  mkThread Idle operations 0 0 0 0 0.

(** Both threads started, before either has run. *)
Definition initial (operations0 operations1 : list Z) : config :=
  mkConfig SharedResource.init (start operations0) (start operations1).

(** The scheduler lets thread [who] take one transition. *)
Definition step (who : Z) (now : Q) (c : config) : config :=
  if who =? 0 then
    let '(th, r) := thread_step 0 now (thread0 c) (shared c) in
    mkConfig r th (thread1 c)
  else if who =? 1 then
    let '(th, r) := thread_step 1 now (thread1 c) (shared c) in
    mkConfig r (thread0 c) th
  else c.

(** A schedule: who runs and what the clock reads, transition by
    transition. *)
Definition run (schedule : list (Z * Q)) (c : config) : config :=
  foldl (λ c '(who, now), step who now c) c schedule.

(** Between the exit of the wait loop of [lock] and the write of [unlock]
    that releases. This contains every point between the return of a
    successful [lock] and the matching [unlock]. *)
Definition in_critical_section (p : pc) : bool :=
  match p with
  | L51 | L52 | L93 | L94 | L95 | L102 | L103 | L112 false => true
  | _ => false
  end.

(** Past [self.turn = other] and not yet out: in the wait loop or in the
    critical section. *)
Definition contending (p : pc) : bool :=
  match p with
  | L44_flag | L44_turn | L45 | L49 => true
  | _ => in_critical_section p
  end.

(** Where the thread's own flag is set. *)
Definition flag_raised (p : pc) : bool :=
  match p with
  | L41 | L46 => true
  | _ => contending p
  end.

(** From taking the operation off the list up to the write of the
    counter: the increment is begun and not yet counted. *)
Definition pending (p : pc) : bool :=
  match p with
  | L89 | L37 | L40 | L41 | L44_flag | L44_turn | L45 | L46 | L47 | L49
  | L51 | L52 | L93 | L94 | L95 => true
  | _ => false
  end.

(** Where [current] holds the counter as read at line 93. *)
Definition holds_current (p : pc) : bool :=
  match p with
  | L94 | L95 => true
  | _ => false
  end.

(** The amounts a thread has still to add. *)
Definition todo (th : thread) : Z :=
  sum_list (operations th) + (if pending (at_pc th) then amount th else 0).

End Threads.

(** ** Vocabulary of the statements *)

(** A lock as [__init__] makes it and the methods keep it: two flags, and
    statistics for both identities. *)
Definition wf (s : PetersonLock.t) : Prop :=
  length (PetersonLock.flag s) = 2%nat ∧
  is_Some (PetersonLock.stats s !! 0) ∧
  is_Some (PetersonLock.stats s !! 1).

(** The identities of the two contenders. *)
Definition valid (process_id : Z) : Prop := process_id = 0 ∨ process_id = 1.

(** [self.flag[i]] as a lookup. *)
Definition flag_of (s : PetersonLock.t) (i : Z) : option bool :=
  PetersonLock.flag s !! Z.to_nat i.

(** What [n] polls of the wait loop that find the other flag set and go to
    sleep leave in the trace. *)
Fixpoint poll_events (other : Z) (n : nat) : list event :=
  match n with
  | O => []
  | Datatypes.S n =>
      EvGetFlag other true :: EvGetTurn other :: EvSleep (1 # 100)
        :: poll_events other n
  end.

(** The lock after [lock(process_id)] has returned. *)
Definition acquired (process_id : Z) (ps : ProcessStats) (elapsed : Q)
    (s : PetersonLock.t) : PetersonLock.t :=
  PetersonLock.mk
    (<[Z.to_nat process_id := true]> (PetersonLock.flag s))
    (1 - process_id)
    (<[process_id := mkProcessStats (entries ps + 1) (wait_time ps + elapsed)
                                    (fails ps)]> (PetersonLock.stats s))
    (PetersonLock._lock_timeout s).

(** The lock after [lock(process_id)] has timed out. *)
Definition timed_out (process_id : Z) (ps : ProcessStats)
    (s : PetersonLock.t) : PetersonLock.t :=
  PetersonLock.mk
    (<[Z.to_nat process_id := false]> (PetersonLock.flag s))
    (1 - process_id)
    (<[process_id := mkProcessStats (entries ps) (wait_time ps)
                                    (fails ps + 1)]> (PetersonLock.stats s))
    (PetersonLock._lock_timeout s).

(** The lock after [unlock(process_id)]. *)
Definition released (process_id : Z) (s : PetersonLock.t) : PetersonLock.t :=
  PetersonLock.with_flag
    (<[Z.to_nat process_id := false]> (PetersonLock.flag s)) s.

(** The accesses of the critical section of [increment]: the counter, the
    access log, and the sleep of line 94 that stands for the work. *)
Definition critical_work (e : event) : bool :=
  match e with
  | EvGetValue _ | EvSetValue _ | EvAppendLog _ => true
  | EvSleep d => Qeq_bool d (1 # 10)
  | EvSetFlag _ _ | EvGetFlag _ _ | EvSetTurn _ | EvGetTurn _ => false
  end.

(** A resource nobody is using: a well-formed lock with both flags down. *)
Definition quiet (r : SharedResource.t) : Prop :=
  wf (SharedResource.lock r) ∧
  PetersonLock.flag (SharedResource.lock r) = [false; false].

(** Identity 1 has its flag set, and identity 0 runs alone. *)
Definition held_by_1 : PetersonLock.t :=
  PetersonLock.with_flag [false; true] PetersonLock.init.

(** What holds of every configuration the two threads can reach: the flag
    of a thread is set wherever its program counter says so, and when one
    thread is in the critical section while the other contends, [turn] names
    the one inside. *)
Definition inv (c : Threads.config) : Prop :=
  let l := SharedResource.lock (Threads.shared c) in
  let pc0 := Threads.at_pc (Threads.thread0 c) in
  let pc1 := Threads.at_pc (Threads.thread1 c) in
  ∃ a b,
    PetersonLock.flag l = [a; b] ∧
    (PetersonLock.turn l = 0 ∨ PetersonLock.turn l = 1) ∧
    (Threads.flag_raised pc0 = true → a = true) ∧
    (Threads.flag_raised pc1 = true → b = true) ∧
    (Threads.in_critical_section pc0 = true →
     Threads.contending pc1 = true → PetersonLock.turn l = 0) ∧
    (Threads.in_critical_section pc1 = true →
     Threads.contending pc0 = true → PetersonLock.turn l = 1).

(** [fails] of identity [p], 0 if [p] has no statistics. *)
Definition fails_in (st : gmap Z ProcessStats) (p : Z) : Z :=
  default 0 (fails <$> st !! p).

(** The counter accounts for the increments: unless an acquisition has timed
    out, the counter and what the threads have still to add make [total]; a
    thread that has read the counter in its critical section still has the
    value the counter holds. *)
Definition accounted (total : Z) (c : Threads.config) : Prop :=
  let r := Threads.shared c in
  let st := PetersonLock.stats (SharedResource.lock r) in
  let th0 := Threads.thread0 c in
  let th1 := Threads.thread1 c in
  (Threads.holds_current (Threads.at_pc th0) = true →
   Threads.current th0 = SharedResource.value r) ∧
  (Threads.holds_current (Threads.at_pc th1) = true →
   Threads.current th1 = SharedResource.value r) ∧
  (Threads.at_pc th0 = Threads.Done → Threads.operations th0 = []) ∧
  (Threads.at_pc th1 = Threads.Done → Threads.operations th1 = []) ∧
  (∃ s0 s1, st !! 0 = Some s0 ∧ st !! 1 = Some s1 ∧
            0 ≤ fails s0 ∧ 0 ≤ fails s1 ∧
            (SharedResource.value r + Threads.todo th0 + Threads.todo th1
               = total ∨ 1 ≤ fails s0 ∨ 1 ≤ fails s1)).

(** ** Further vocabulary: calls in sequence *)

(** The sum of the amounts an access log records. *)
Fixpoint logged (lg : list LogEntry) : Z :=
  match lg with
  | [] => 0
  | e :: lg =>
      match log_amount e with PyInt n => n | PyNone => 0 end + logged lg
  end.

(** The [increment] calls in a sequence of calls. *)
Fixpoint increments_in (cs : list call) : nat :=
  match cs with
  | [] => 0
  | CallIncrement _ _ :: cs => Datatypes.S (increments_in cs)
  | _ :: cs => increments_in cs
  end.

(** The identity whose acquisition a call attempts, if it attempts one that
    passes the check of the identity. *)
Definition attempt_of (c : call) : option Z :=
  match c with
  | CallIncrement q _ | CallLock q =>
      if py_in q [0; 1] then Some q else None
  | CallUnlock _ | CallGetStats => None
  end.

(** What one call can do to the lock; the index is the identity that
    attempted an acquisition. *)
Inductive lock_step (l : PetersonLock.t)
  : option Z → PetersonLock.t → Prop :=
| step_same : lock_step l None l
| step_acquired p ps e :
    valid p → PetersonLock.stats l !! p = Some ps →
    lock_step l (Some p) (acquired p ps e l)
| step_acquired_released p ps e :
    valid p → PetersonLock.stats l !! p = Some ps →
    lock_step l (Some p) (released p (acquired p ps e l))
| step_timed_out p ps :
    valid p → PetersonLock.stats l !! p = Some ps →
    lock_step l (Some p) (timed_out p ps l)
| step_timed_out_released p ps :
    valid p → PetersonLock.stats l !! p = Some ps →
    lock_step l (Some p) (released p (timed_out p ps l))
| step_released p : valid p → lock_step l None (released p l).

(** The shape [__init__] gives the lock and no method changes. *)
Definition lock_shape (l : PetersonLock.t) : Prop :=
  length (PetersonLock.flag l) = 2%nat ∧
  (PetersonLock.turn l = 0 ∨ PetersonLock.turn l = 1) ∧
  dom (PetersonLock.stats l) = ({[0; 1]} : gset Z) ∧
  PetersonLock._lock_timeout l = 5%Q.

(** ** Further vocabulary: the two threads *)

(** The amount a thread has added to the counter and not yet logged. *)
Definition unlogged (th : Threads.thread) : Z :=
  match Threads.at_pc th with
  | Threads.L102 | Threads.L103 => Threads.amount th
  | _ => 0
  end.

(** The entries of identity [p] in an access log. *)
Fixpoint count_by (p : Z) (lg : list LogEntry) : Z :=
  match lg with
  | [] => 0
  | e :: lg => (if log_process_id e =? p then 1 else 0) + count_by p lg
  end.

(** Counted in [entries] at line 51 and not yet in the log. *)
Definition entered_unlogged (th : Threads.thread) : Z :=
  match Threads.at_pc th with
  | Threads.L52 | Threads.L93 | Threads.L94 | Threads.L95
  | Threads.L102 | Threads.L103 => 1
  | _ => 0
  end.

(** [entries] of identity [p], 0 if [p] has no statistics. *)
Definition entries_in (st : gmap Z ProcessStats) (p : Z) : Z :=
  default 0 (entries <$> st !! p).

(** Thread [who] of a configuration. *)
Definition thread_of (c : Threads.config) (who : Z) : Threads.thread :=
  if who =? 0 then Threads.thread0 c else Threads.thread1 c.

(** The lock of a configuration. *)
Definition lock_of (c : Threads.config) : PetersonLock.t :=
  SharedResource.lock (Threads.shared c).

(** What the other thread does meanwhile: the thread that is not [who] takes
    one transition per reading. *)
Definition other_runs (who : Z) (readings : list Q) (c : Threads.config)
  : Threads.config :=
  Threads.run ((λ now, (1 - who, now)) <$> readings) c.

(** [test_basic_functionality] and [test_different_increments]: two threads
    on a new resource, started and joined, and the counter compared with the
    expected value. The schedule is what the scheduler and the clock did
    between [start] and the return of the second [join]; [None] if the
    schedule ends before both threads have. *)
Definition test_threads (operations0 operations1 : list Z) (expected : Z)
    (schedule : list (Z * Q)) : option bool :=
  let c := Threads.run schedule
             (Threads.initial operations0 operations1) in
  match Threads.at_pc (Threads.thread0 c),
        Threads.at_pc (Threads.thread1 c) with
  | Threads.Done, Threads.Done =>
      Some (SharedResource.value (Threads.shared c) =? expected)
  | _, _ => None
  end.

Definition test_basic_functionality : list (Z * Q) → option bool :=
  test_threads [1; 1; 1] [1; 1; 1] 6.

Definition test_different_increments : list (Z * Q) → option bool :=
  test_threads [2; 3; 4] [1; 2; 3] 15.

(** * The plain variant: [peterson-algorithm.py]

    The same two classes without validation, timeout, statistics and log.
    The wait loop is [while ...: pass], with no bound of its own: the model
    gives it a number of polls, and [None] is a call that is still spinning
    when they are used up. *)

Module Basic.

(** ** [class PetersonLock] *)

Module PetersonLock.

Record t : Type := mk {
  flag : list bool;
  turn : Z
}.

(** [__init__] *)
Definition init : t := {| flag := [false; false]; turn := 0 |}.

(** [self.flag[i] = b] *)
Definition set_flag (i : Z) (b : bool) : M t unit :=
  l ← gets flag;
  match py_index l i with
  | None => raise IndexError
  | Some k => modify (λ s, mk (<[k := b]> l) (turn s));; emit (EvSetFlag i b)
  end.

(** [self.flag[i]] *)
Definition get_flag (i : Z) : M t bool :=
  l ← gets flag;
  match py_index l i ≫= λ k, l !! k with
  | None => raise IndexError
  | Some b => emit (EvGetFlag i b);; mret b
  end.

(** [self.turn = x] *)
Definition set_turn (x : Z) : M t unit :=
  modify (λ s, mk (flag s) x);; emit (EvSetTurn x).

(** [self.turn] *)
Definition get_turn : M t Z :=
  x ← gets turn; emit (EvGetTurn x);; mret x.

(** Lines 19-20: [while self.flag[other] and self.turn == other: pass] *)
Fixpoint busy_wait (polls : nat) (other : Z) : M t unit :=
  f ← get_flag other;
  c ← (if f : bool then x ← get_turn; mret (x =? other)
       else mret false);
  if c : bool then
    match polls with
    | O => stuck
    | Datatypes.S n => busy_wait n other
    end
  else mret tt.

(** [def lock(self, process_id)] *)
Definition lock (polls : nat) (process_id : Z) : M t unit :=
  let other := 1 - process_id in
  set_flag process_id true;;
  set_turn other;;
  busy_wait polls other.

(** [def unlock(self, process_id)] *)
Definition unlock (process_id : Z) : M t unit :=
  set_flag process_id false.

End PetersonLock.

(** ** [class SharedResource] *)

Module SharedResource.

Record t : Type := mk {
  value : Z;
  lock : PetersonLock.t
}.

(** [__init__] *)
Definition init : t := {| value := 0; lock := PetersonLock.init |}.

(** [self.lock.m(...)] *)
Definition on_lock {A} (m : M PetersonLock.t A) : M t A :=
  zoom lock (λ l r, mk (value r) l) m.

(** [def increment(self, process_id)] *)
Definition increment (polls : nat) (process_id : Z) : M t unit :=
  on_lock (PetersonLock.lock polls process_id);;
  current ← (v ← gets value; emit (EvGetValue v);; mret v);
  time_sleep (1 # 10);;
  modify (λ r, mk (current + 1) (lock r));;
  emit (EvSetValue (current + 1));;
  on_lock (PetersonLock.unlock process_id).

End SharedResource.

(** [def process_function(shared_resource, process_id, iterations)];
    [range(iterations)] is empty for a negative [iterations]. *)
Fixpoint repeat_increment (polls : nat) (process_id : Z) (n : nat)
  : M SharedResource.t unit :=
  match n with
  | O => mret tt
  | Datatypes.S n =>
      SharedResource.increment polls process_id;;
      time_sleep (1 # 5);;
      repeat_increment polls process_id n
  end.

Definition process_function (polls : nat) (process_id iterations : Z)
  : M SharedResource.t unit :=
  repeat_increment polls process_id (Z.to_nat iterations).

(** ** The two threads of [main] *)

(** As for the other variant: one transition per access to shared memory,
    program counters named after the source lines. The identities are 0 and
    1 and the lock has its two flags, so no access is out of range. *)

Module Threads.

Inductive pc : Type :=
| Idle        (* [for _ in range(iterations):] *)
| B15         (* [self.flag[process_id] = True] *)
| B16         (* [self.turn = other] *)
| B19_flag    (* [while self.flag[other] ...] *)
| B19_turn    (* [... and self.turn == other:] *)
| B36         (* [current = self.value] *)
| B37         (* [time.sleep(0.1)] *)
| B38         (* [self.value = current + 1] *)
| B41         (* [self.lock.unlock(process_id)] *)
| B47         (* [time.sleep(0.2)] *)
| Done.

Record thread : Type := mkThread {
  at_pc : pc;
  remaining : nat;
  current : Z
}.

Definition goto (p : pc) (th : thread) : thread :=
  mkThread p (remaining th) (current th).

Definition on_flag (f : list bool → list bool) (r : SharedResource.t)
  : SharedResource.t :=
  SharedResource.mk (SharedResource.value r)
    (PetersonLock.mk (f (PetersonLock.flag (SharedResource.lock r)))
                     (PetersonLock.turn (SharedResource.lock r))).

(** One transition of thread [p]. *)
Definition thread_step (p : Z) (th : thread) (r : SharedResource.t)
  : thread * SharedResource.t :=
  let other := 1 - p in
  let l := SharedResource.lock r in
  match at_pc th with
  | Idle =>
      match remaining th with
      | O => (goto Done th, r)
      | Datatypes.S n => (mkThread B15 n (current th), r)
      end
  | B15 => (goto B16 th, on_flag (<[Z.to_nat p := true]>) r)
  | B16 =>
      (goto B19_flag th,
       SharedResource.mk (SharedResource.value r)
                         (PetersonLock.mk (PetersonLock.flag l) other))
  | B19_flag =>
      if default false (PetersonLock.flag l !! Z.to_nat other)
      then (goto B19_turn th, r) else (goto B36 th, r)
  | B19_turn =>
      if PetersonLock.turn l =? other
      then (goto B19_flag th, r) else (goto B36 th, r)
  | B36 => (mkThread B37 (remaining th) (SharedResource.value r), r)
  | B37 => (goto B38 th, r)
  | B38 => (goto B41 th, SharedResource.mk (current th + 1) l)
  | B41 => (goto B47 th, on_flag (<[Z.to_nat p := false]>) r)
  | B47 => (goto Idle th, r)
  | Done => (th, r)
  end.

Record config : Type := mkConfig {
  shared : SharedResource.t;
  thread0 : thread;
  thread1 : thread
}.

(** [main]: both threads started on a new resource. *)
Definition initial (iterations0 iterations1 : Z) : config :=
  mkConfig SharedResource.init
           (mkThread Idle (Z.to_nat iterations0) 0)
           (mkThread Idle (Z.to_nat iterations1) 0).

(** The scheduler lets thread [who] take one transition. *)
Definition step (who : Z) (c : config) : config :=
  if who =? 0 then
    let '(th, r) := thread_step 0 (thread0 c) (shared c) in
    mkConfig r th (thread1 c)
  else if who =? 1 then
    let '(th, r) := thread_step 1 (thread1 c) (shared c) in
    mkConfig r (thread0 c) th
  else c.

Definition run (schedule : list Z) (c : config) : config :=
  foldl (λ c who, step who c) c schedule.

(** Between the exit of the wait loop and the write of [unlock]. *)
Definition in_critical_section (p : pc) : bool :=
  match p with
  | B36 | B37 | B38 | B41 => true
  | _ => false
  end.

(** Past [self.turn = other] and not yet out. *)
Definition contending (p : pc) : bool :=
  match p with
  | B19_flag | B19_turn => true
  | _ => in_critical_section p
  end.

(** Where the thread's own flag is set. *)
Definition flag_raised (p : pc) : bool :=
  match p with
  | B16 => true
  | _ => contending p
  end.

(** The increments a thread has still to make. *)
Definition todo (th : thread) : Z :=
  Z.of_nat (remaining th) +
  match at_pc th with
  | B15 | B16 | B19_flag | B19_turn | B36 | B37 | B38 => 1
  | _ => 0
  end.

(** What holds of every configuration the two threads can reach. *)
Definition inv (total : Z) (c : config) : Prop :=
  let l := SharedResource.lock (shared c) in
  let pc0 := at_pc (thread0 c) in
  let pc1 := at_pc (thread1 c) in
  PetersonLock.flag l = [flag_raised pc0; flag_raised pc1] ∧
  (PetersonLock.turn l = 0 ∨ PetersonLock.turn l = 1) ∧
  (in_critical_section pc0 = true → contending pc1 = true →
   PetersonLock.turn l = 0) ∧
  (in_critical_section pc1 = true → contending pc0 = true →
   PetersonLock.turn l = 1) ∧
  (pc0 = B37 ∨ pc0 = B38 →
   current (thread0 c) = SharedResource.value (shared c)) ∧
  (pc1 = B37 ∨ pc1 = B38 →
   current (thread1 c) = SharedResource.value (shared c)) ∧
  SharedResource.value (shared c) + todo (thread0 c) + todo (thread1 c)
    = total ∧
  (pc0 = Done → remaining (thread0 c) = 0%nat) ∧
  (pc1 = Done → remaining (thread1 c) = 0%nat).

End Threads.

End Basic.

(** * Proofs *)

(** ** Running the monad *)

Lemma py_index_0 {A} (a b : A) : py_index [a; b] 0 = Some 0%nat.
Proof. reflexivity. Qed.

Lemma py_index_1 {A} (a b : A) : py_index [a; b] 1 = Some 1%nat.
Proof. reflexivity. Qed.

Lemma update_stats_run i f (w : World PetersonLock.t) ps :
  PetersonLock.stats (obj w) !! i = Some ps →
  PetersonLock.update_stats i f w =
    Some (Return tt,
          mkWorld (PetersonLock.with_stats
                     (<[i := f ps]> (PetersonLock.stats (obj w))) (obj w))
                  (clock w) (trace w)).
Proof.
  intros H. unfold PetersonLock.update_stats.
  cbv [mbind M_bind bind gets]. rewrite H. reflexivity.
Qed.

Ltac norm_pid := change (1 - 0) with 1 in *; change (1 - 1) with 0 in *.

Ltac run :=
  repeat (cbv [mbind M_bind bind mret M_ret ret raise try_except
               try_except_PetersonError try_finally gets modify emit
               time_time time_sleep polls_left stuck discard
               PetersonLock.get_flag PetersonLock.set_flag
               PetersonLock.get_turn PetersonLock.set_turn
               PetersonLock.with_flag PetersonLock.with_turn
               PetersonLock.with_stats];
          change (1 - 0) with 1; change (1 - 1) with 0;
          change (Qle_bool 0 (1 # 100)) with true;
          change (Qle_bool 0 (1 # 10)) with true;
          rewrite ?py_index_0, ?py_index_1;
          cbn).

Ltac run_stats :=
  erewrite update_stats_run
    by (cbn; first [eassumption | apply lookup_insert_eq]).

(** ** The wait loop *)

Section WaitLoop.
Import PetersonLock.

Lemma wait_loop_free polls pid start a b tn st tmo clk tr :
  valid pid →
  [a; b] !! Z.to_nat (1 - pid) = Some false →
  wait_loop polls pid (1 - pid) start
      (mkWorld (mk [a; b] tn st tmo) clk tr) =
    Some (Return tt,
          mkWorld (mk [a; b] tn st tmo) clk
                  (tr ++ [EvGetFlag (1 - pid) false])).
Proof.
  intros [-> | ->] H; norm_pid; simplify_eq/=; destruct polls; reflexivity.
Qed.

Lemma wait_loop_spin early :
  ∀ polls pid start a b st tmo late rest tr ps,
  valid pid →
  [a; b] !! Z.to_nat (1 - pid) = Some true →
  st !! pid = Some ps →
  (length early ≤ polls)%nat →
  Forall (λ x, Qgt_bool (x - start) tmo = false) early →
  Qgt_bool (late - start) tmo = true →
  wait_loop polls pid (1 - pid) start
      (mkWorld (mk [a; b] (1 - pid) st tmo) (early ++ late :: rest) tr) =
    Some (Raise (LockTimeout pid),
          mkWorld (timed_out pid ps (mk [a; b] (1 - pid) st tmo)) rest
                  (tr ++ poll_events (1 - pid) (length early)
                      ++ [EvGetFlag (1 - pid) true; EvGetTurn (1 - pid);
                          EvSetFlag pid false])).
Proof.
  induction early as [|e early IH];
    intros polls pid start a b st tmo late rest tr ps
           Hpid Hf Hst Hlen Hearly Hlate.
  - destruct Hpid as [-> | ->]; norm_pid; simplify_eq/=;
      destruct polls; run; rewrite Hlate; run; run_stats; run;
      rewrite <- ?app_assoc; reflexivity.
  - inversion Hearly as [|? ? He Hearly']; subst.
    destruct polls as [|polls]; [simpl in Hlen; lia|].
    simpl in Hlen.
    destruct Hpid as [-> | ->]; norm_pid; simplify_eq/=.
    + run. rewrite He. run.
      specialize (IH polls 0 start a true st tmo late rest
                     (((tr ++ [EvGetFlag 1 true]) ++ [EvGetTurn 1])
                        ++ [EvSleep (1 # 100)]) ps).
      norm_pid. rewrite IH; [|left; reflexivity|done..|lia|done|done].
      rewrite <- !app_assoc. reflexivity.
    + run. rewrite He. run.
      specialize (IH polls 1 start true b st tmo late rest
                     (((tr ++ [EvGetFlag 0 true]) ++ [EvGetTurn 0])
                        ++ [EvSleep (1 # 100)]) ps).
      norm_pid. rewrite IH; [|right; reflexivity|done..|lia|done|done].
      rewrite <- !app_assoc. reflexivity.
Qed.

(** Every way out of the wait loop, for a call that runs alone. *)
Lemma wait_loop_sound polls :
  ∀ pid start a b st tmo clk tr ps r w',
  valid pid →
  st !! pid = Some ps →
  wait_loop polls pid (1 - pid) start
      (mkWorld (mk [a; b] (1 - pid) st tmo) clk tr) = Some (r, w') →
  ([a; b] !! Z.to_nat (1 - pid) = Some false ∧ r = Return tt ∧
   obj w' = mk [a; b] (1 - pid) st tmo ∧ clock w' = clk ∧
   trace w' = tr ++ [EvGetFlag (1 - pid) false])
  ∨
  ([a; b] !! Z.to_nat (1 - pid) = Some true ∧ r = Raise (LockTimeout pid) ∧
   obj w' = timed_out pid ps (mk [a; b] (1 - pid) st tmo) ∧
   ∃ evs, Forall (λ e, critical_work e = false) evs ∧
          trace w' =
          tr ++ [EvGetFlag (1 - pid) true; EvGetTurn (1 - pid)] ++ evs
              ++ [EvSetFlag pid false]).
Proof.
  induction polls as [|polls IH];
    intros pid start a b st tmo clk tr ps r w' Hpid Hst Hrun.
  - destruct Hpid as [-> | ->]; norm_pid;
      [destruct b | destruct a]; revert Hrun; run;
      try (intros [= <- <-]; left; done).
    all: destruct clk as [|x clk]; run; try done.
    all: destruct (Qgt_bool (x - start) tmo); run; try done.
    all: run_stats; run; intros [= <- <-]; right.
    all: repeat split; try done; exists []; split; [constructor|];
         rewrite <- ?app_assoc; done.
  - destruct Hpid as [-> | ->]; norm_pid;
      [destruct b | destruct a]; revert Hrun; run;
      try (intros [= <- <-]; left; done).
    all: destruct clk as [|x clk]; run; try done.
    all: destruct (Qgt_bool (x - start) tmo); run.
    1,3: run_stats; run; intros [= <- <-]; right;
         repeat split; try done; exists []; split; [constructor|];
         rewrite <- ?app_assoc; done.
    + intros Hrun.
      apply (IH 0 start a true st tmo clk _ ps r w') in Hrun;
        [|left; reflexivity|done].
      norm_pid. destruct Hrun as [(? & _)|(_ & -> & -> & evs & Hevs & ->)];
        [done|].
      right. repeat split; try done.
      eexists (EvSleep (1 # 100) :: EvGetFlag 1 true :: EvGetTurn 1 :: evs).
      split; [repeat constructor; done|].
      rewrite <- !app_assoc. reflexivity.
    + intros Hrun.
      apply (IH 1 start true b st tmo clk _ ps r w') in Hrun;
        [|right; reflexivity|done].
      norm_pid. destruct Hrun as [(? & _)|(_ & -> & -> & evs & Hevs & ->)];
        [done|].
      right. repeat split; try done.
      eexists (EvSleep (1 # 100) :: EvGetFlag 0 true :: EvGetTurn 0 :: evs).
      split; [repeat constructor; done|].
      rewrite <- !app_assoc. reflexivity.
Qed.
End WaitLoop.

Section LockCalls.
Import PetersonLock.

Lemma lock_invalid pid (w : World t) :
  ¬ valid pid → lock pid w = Some (Raise (InvalidProcessId pid), w).
Proof.
  intros H. unfold lock, py_in. simpl.
  destruct (Z.eqb_spec pid 0) as [->|]; [destruct H; left; done|].
  destruct (Z.eqb_spec pid 1) as [->|]; [destruct H; right; done|].
  reflexivity.
Qed.

Lemma unlock_invalid pid (w : World t) :
  ¬ valid pid → unlock pid w = Some (Raise (InvalidProcessId pid), w).
Proof.
  intros H. unfold unlock, py_in. simpl.
  destruct (Z.eqb_spec pid 0) as [->|]; [destruct H; left; done|].
  destruct (Z.eqb_spec pid 1) as [->|]; [destruct H; right; done|].
  reflexivity.
Qed.

Lemma wf_cells s :
  wf s → ∃ a b, flag s = [a; b].
Proof.
  intros (Hlen & _). destruct (flag s) as [|a [|b [|]]]; simplify_eq/=.
  eauto.
Qed.

Lemma lock_enters pid s ps t0 t1 rest tr :
  valid pid → wf s →
  flag_of s (1 - pid) = Some false →
  stats s !! pid = Some ps →
  lock pid (mkWorld s (t0 :: t1 :: rest) tr) =
    Some (Return true,
          mkWorld (acquired pid ps (t1 - t0) s) rest
                  (tr ++ [EvSetFlag pid true; EvSetTurn (1 - pid);
                          EvGetFlag (1 - pid) false])).
Proof.
  intros Hpid Hwf Hf Hst. destruct (wf_cells s Hwf) as (a & b & Hab).
  destruct s as [fl tn st tmo]. unfold flag_of, acquired in *.
  simpl in *. subst fl.
  destruct Hpid as [-> | ->]; norm_pid; simplify_eq/=.
  - unfold lock. run. run_stats. run. run_stats. run.
    rewrite insert_insert_eq, <- !app_assoc. reflexivity.
  - unfold lock. run. run_stats. run. run_stats. run.
    rewrite insert_insert_eq, <- !app_assoc. reflexivity.
Qed.

Lemma lock_times_out pid s ps t0 early late rest tr :
  valid pid → wf s →
  flag_of s (1 - pid) = Some true →
  stats s !! pid = Some ps →
  Forall (λ x, Qgt_bool (x - t0) (_lock_timeout s) = false) early →
  Qgt_bool (late - t0) (_lock_timeout s) = true →
  lock pid (mkWorld s (t0 :: early ++ late :: rest) tr) =
    Some (Raise (LockAcquisitionFailure (LockTimeout pid)),
          mkWorld (timed_out pid ps s) rest
                  (tr ++ [EvSetFlag pid true; EvSetTurn (1 - pid)]
                      ++ poll_events (1 - pid) (length early)
                      ++ [EvGetFlag (1 - pid) true; EvGetTurn (1 - pid);
                          EvSetFlag pid false; EvSetFlag pid false])).
Proof.
  intros Hpid Hwf Hf Hst Hearly Hlate.
  destruct (wf_cells s Hwf) as (a & b & Hab).
  destruct s as [fl tn st tmo]. unfold flag_of, timed_out in *.
  simpl in *. subst fl.
  destruct Hpid as [-> | ->]; norm_pid; simplify_eq/=.
  - pose proof (wait_loop_spin early (length (early ++ late :: rest)) 0 t0
                  true true st tmo late rest
                  ((tr ++ [EvSetFlag 0 true]) ++ [EvSetTurn 1]) ps) as Hloop.
    unfold timed_out in Hloop. norm_pid. simpl in Hloop.
    unfold lock. run. rewrite Hloop; [|left; done|done..| |done|done].
    + run. rewrite <- !app_assoc. reflexivity.
    + rewrite length_app. lia.
  - pose proof (wait_loop_spin early (length (early ++ late :: rest)) 1 t0
                  true true st tmo late rest
                  ((tr ++ [EvSetFlag 1 true]) ++ [EvSetTurn 0]) ps) as Hloop.
    unfold timed_out in Hloop. norm_pid. simpl in Hloop.
    unfold lock. run. rewrite Hloop; [|right; done|done..| |done|done].
    + run. rewrite <- !app_assoc. reflexivity.
    + rewrite length_app. lia.
Qed.

(** Every outcome of [lock] for a contender that runs alone. *)
Lemma lock_sound pid s ps clk tr r w' :
  valid pid → wf s →
  stats s !! pid = Some ps →
  lock pid (mkWorld s clk tr) = Some (r, w') →
  (∃ t0 t1 rest,
      clk = t0 :: t1 :: rest ∧ flag_of s (1 - pid) = Some false ∧
      r = Return true ∧
      w' = mkWorld (acquired pid ps (t1 - t0) s) rest
                   (tr ++ [EvSetFlag pid true; EvSetTurn (1 - pid);
                           EvGetFlag (1 - pid) false]))
  ∨
  (flag_of s (1 - pid) = Some true ∧
   r = Raise (LockAcquisitionFailure (LockTimeout pid)) ∧
   obj w' = timed_out pid ps s ∧
   ∃ evs, Forall (λ e, critical_work e = false) evs ∧
          trace w' =
          tr ++ [EvSetFlag pid true; EvSetTurn (1 - pid);
                 EvGetFlag (1 - pid) true; EvGetTurn (1 - pid)] ++ evs
             ++ [EvSetFlag pid false; EvSetFlag pid false]).
Proof.
  intros Hpid Hwf Hst Hrun.
  destruct (wf_cells s Hwf) as (a & b & Hab).
  destruct s as [fl tn st tmo]. unfold flag_of, timed_out, acquired in *.
  simpl in *. subst fl.
  destruct clk as [|t0 clk].
  { destruct Hpid as [-> | ->]; done. }
  destruct Hpid as [-> | ->]; norm_pid.
  - revert Hrun. unfold lock. run.
    destruct (wait_loop _ _ _ _ _) as [[r1 w1]|] eqn:Hloop; [|done].
    apply (wait_loop_sound _ 0 t0 true b st tmo clk _ ps) in Hloop;
      [|left; done|done].
    norm_pid. unfold timed_out in Hloop. simpl in Hloop.
    destruct Hloop as [(Hb & -> & Hobj & Hclk & Htr)
                      |(Hb & -> & Hobj & evs & Hevs & Htr)];
      destruct w1 as [o1 c1 tr1]; simpl in *; subst.
    + run_stats. run. destruct clk as [|t1 rest]; [done|].
      run. run_stats. run. intros [= <- <-]. left.
      exists t0, t1, rest. rewrite insert_insert_eq, <- !app_assoc. done.
    + run. intros [= <- <-]. right. repeat split; try done.
      exists evs. split; [done|].
      repeat (rewrite <- ?app_assoc; simpl). reflexivity.
  - revert Hrun. unfold lock. run.
    destruct (wait_loop _ _ _ _ _) as [[r1 w1]|] eqn:Hloop; [|done].
    apply (wait_loop_sound _ 1 t0 a true st tmo clk _ ps) in Hloop;
      [|right; done|done].
    norm_pid. unfold timed_out in Hloop. simpl in Hloop.
    destruct Hloop as [(Hb & -> & Hobj & Hclk & Htr)
                      |(Hb & -> & Hobj & evs & Hevs & Htr)];
      destruct w1 as [o1 c1 tr1]; simpl in *; subst.
    + run_stats. run. destruct clk as [|t1 rest]; [done|].
      run. run_stats. run. intros [= <- <-]. left.
      exists t0, t1, rest. rewrite insert_insert_eq, <- !app_assoc. done.
    + run. intros [= <- <-]. right. repeat split; try done.
      exists evs. split; [done|].
      repeat (rewrite <- ?app_assoc; simpl). reflexivity.
Qed.

Lemma unlock_releases pid s clk tr :
  valid pid → wf s →
  unlock pid (mkWorld s clk tr) =
    Some (Return tt,
          mkWorld (released pid s) clk (tr ++ [EvSetFlag pid false])).
Proof.
  intros Hpid Hwf. destruct (wf_cells s Hwf) as (a & b & Hab).
  destruct s as [fl tn st tmo]. unfold released. simpl in *. subst fl.
  destruct Hpid as [-> | ->]; reflexivity.
Qed.

Lemma wf_init : wf init.
Proof. repeat split; vm_compute; eauto. Qed.

Lemma wf_acquired pid ps e s : valid pid → wf s → wf (acquired pid ps e s).
Proof.
  intros Hpid (Hl & H0 & H1). unfold wf, acquired. simpl.
  rewrite length_insert. split; [done|].
  destruct Hpid as [-> | ->];
    rewrite ?lookup_insert_eq, ?lookup_insert_ne by done; eauto.
Qed.

Lemma wf_timed_out pid ps s : valid pid → wf s → wf (timed_out pid ps s).
Proof.
  intros Hpid (Hl & H0 & H1). unfold wf, timed_out. simpl.
  rewrite length_insert. split; [done|].
  destruct Hpid as [-> | ->];
    rewrite ?lookup_insert_eq, ?lookup_insert_ne by done; eauto.
Qed.

Lemma wf_released pid s : wf s → wf (released pid s).
Proof.
  intros (Hl & H0 & H1). unfold wf, released. simpl.
  rewrite length_insert. done.
Qed.

End LockCalls.

(** ** The lock: properties *)

Lemma Qgt_bool_false a b : (a <= b)%Q → Qgt_bool a b = false.
Proof.
  intros H. unfold Qgt_bool. apply Qle_bool_iff in H. rewrite H. reflexivity.
Qed.

Lemma Qgt_bool_true a b : (b < a)%Q → Qgt_bool a b = true.
Proof.
  intros H. unfold Qgt_bool. destruct (Qle_bool a b) eqn:E; [|reflexivity].
  apply Qle_bool_iff in E. exfalso. exact (Qlt_not_le _ _ H E).
Qed.

Lemma not_valid_2 : ¬ valid 2.
Proof. intros [H | H]; discriminate H. Defined.

Lemma valid_0 : valid 0.
Proof. left; reflexivity. Defined.

Lemma valid_1 : valid 1.
Proof. right; reflexivity. Defined.

Section LockProperties.
Import PetersonLock.

(** C3. For every identity outside {0,1}, [lock] and [unlock] both fail with
    [InvalidProcessId] and leave the whole world as it was: flags, turn and
    the statistics of both identities (and the clock and the trace: no
    shared cell was even read). *)
Theorem invalid_identity_rejected (process_id : Z) (w : World t) :
  ¬ valid process_id →
  lock process_id w = Some (Raise (InvalidProcessId process_id), w) ∧
  unlock process_id w = Some (Raise (InvalidProcessId process_id), w).
Proof.
  intros H. split; [apply lock_invalid | apply unlock_invalid]; exact H.
Qed.

Lemma invalid_identity_rejected_witness :
  ¬ valid 2 ∧
  lock 2 (mkWorld init [] []) =
    Some (Raise (InvalidProcessId 2), mkWorld init [] []) ∧
  unlock 2 (mkWorld init [] []) =
    Some (Raise (InvalidProcessId 2), mkWorld init [] []).
Proof.
  split; [exact not_valid_2|].
  exact (invalid_identity_rejected 2 (mkWorld init [] []) not_valid_2).
Defined.

(** C2. A contender that finds the other flag set, polls while the elapsed
    time is within [_lock_timeout] and then reads a clock past it, aborts:
    the call raises the timeout error wrapped as an acquisition failure,
    its own flag is false afterwards, cleared at line 46 and again by the
    handler at line 56 as the last two accesses of the call, [fails] is one
    more, [entries] and [wait_time] are as before. [__init__] sets the
    timeout to 5 seconds. *)
Theorem timeout_aborts (process_id : Z) (s : t) (ps : ProcessStats)
    (t0 : Q) (early : list Q) (late : Q) (rest : list Q)
    (tr : list event) :
  valid process_id → wf s →
  flag_of s (1 - process_id) = Some true →
  stats s !! process_id = Some ps →
  Forall (λ x, (x - t0 <= _lock_timeout s)%Q) early →
  (_lock_timeout s < late - t0)%Q →
  ∃ w',
    lock process_id (mkWorld s (t0 :: early ++ late :: rest) tr) =
      Some (Raise (LockAcquisitionFailure (LockTimeout process_id)), w') ∧
    flag_of (obj w') process_id = Some false ∧
    (∃ evs, trace w' =
            tr ++ evs ++ [EvSetFlag process_id false;
                          EvSetFlag process_id false]) ∧
    stats (obj w') !! process_id =
      Some (mkProcessStats (entries ps) (wait_time ps) (fails ps + 1)) ∧
    _lock_timeout init = 5%Q.
Proof.
  intros Hpid Hwf Hf Hst Hearly Hlate. eexists. split.
  - apply lock_times_out; try eassumption.
    + eapply Forall_impl; [exact Hearly|]. intros x Hx.
      apply Qgt_bool_false, Hx.
    + apply Qgt_bool_true, Hlate.
  - simpl. destruct (wf_cells s Hwf) as (a & b & Hab).
    unfold flag_of, timed_out. simpl. rewrite Hab.
    repeat split.
    + destruct Hpid as [-> | ->]; reflexivity.
    + eexists ([EvSetFlag process_id true; EvSetTurn (1 - process_id)]
                 ++ poll_events (1 - process_id) (length early)
                 ++ [EvGetFlag (1 - process_id) true;
                     EvGetTurn (1 - process_id)]).
      repeat (rewrite <- ?app_assoc; simpl). reflexivity.
    + apply lookup_insert_eq.
Qed.

Lemma wf_held_by_1 : wf held_by_1.
Proof. repeat split; vm_compute; eauto. Qed.

Lemma timeout_aborts_witness :
  ∃ w',
    lock 0 (mkWorld held_by_1 (0 :: [1; 5] ++ 6 :: [7])%Q []) =
      Some (Raise (LockAcquisitionFailure (LockTimeout 0)), w') ∧
    flag_of (obj w') 0 = Some false ∧
    (∃ evs, trace w' =
            [] ++ evs ++ [EvSetFlag 0 false; EvSetFlag 0 false]) ∧
    stats (obj w') !! 0 =
      Some (mkProcessStats (entries (mkProcessStats 0 0 0))
                           (wait_time (mkProcessStats 0 0 0))
                           (fails (mkProcessStats 0 0 0) + 1)) ∧
    _lock_timeout init = 5%Q.
Proof.
  apply (timeout_aborts 0 held_by_1 (mkProcessStats 0 0 0)
                        0%Q [1; 5]%Q 6%Q [7]%Q []).
  - exact valid_0.
  - exact wf_held_by_1.
  - reflexivity.
  - reflexivity.
  - repeat constructor; vm_compute; intros H; discriminate H.
  - vm_compute. reflexivity.
Defined.

(** C8. For an identity in {0,1}, [unlock] returns normally from every
    state of the lock, whether or not the identity holds it, and leaves the
    identity's flag false. A second [unlock] returns normally too and
    leaves the lock as the first did; on a lock whose flag is already false
    it changes nothing. *)
Theorem unlock_succeeds_and_is_idempotent (process_id : Z) (s : t)
    (clk : list Q) (tr : list event) :
  valid process_id → wf s →
  ∃ w1 w2,
    unlock process_id (mkWorld s clk tr) = Some (Return tt, w1) ∧
    flag_of (obj w1) process_id = Some false ∧
    unlock process_id w1 = Some (Return tt, w2) ∧
    obj w2 = obj w1 ∧
    (flag_of s process_id = Some false → obj w1 = s).
Proof.
  intros Hpid Hwf. do 2 eexists. split; [apply unlock_releases; done|].
  split; [|split; [apply unlock_releases; [done|apply wf_released; done]|]].
  - destruct (wf_cells s Hwf) as (a & b & Hab).
    unfold flag_of, released. simpl. rewrite Hab.
    destruct Hpid as [-> | ->]; reflexivity.
  - simpl. destruct (wf_cells s Hwf) as (a & b & Hab).
    destruct s as [fl tn st tmo]. unfold released, flag_of. simpl in *.
    subst fl. split.
    + destruct Hpid as [-> | ->]; reflexivity.
    + destruct Hpid as [-> | ->]; simpl; intros [= ->]; reflexivity.
Qed.

Lemma unlock_succeeds_and_is_idempotent_witness :
  ∃ w1 w2,
    unlock 1 (mkWorld init [] []) = Some (Return tt, w1) ∧
    flag_of (obj w1) 1 = Some false ∧
    unlock 1 w1 = Some (Return tt, w2) ∧
    obj w2 = obj w1 ∧
    (flag_of init 1 = Some false → obj w1 = init).
Proof.
  exact (unlock_succeeds_and_is_idempotent 1 init [] [] valid_1 wf_init).
Defined.

(** C10. For an identity in {0,1}: whatever the outcome of [lock], the
    other identity's flag is as before, and so are the statistics of every
    other identity; [unlock] changes the identity's own flag and nothing
    else of the lock. *)
Theorem lock_unlock_frame (process_id : Z) (s : t) (clk : list Q)
    (tr : list event) :
  valid process_id → wf s →
  (∀ r w',
     lock process_id (mkWorld s clk tr) = Some (r, w') →
     flag_of (obj w') (1 - process_id) = flag_of s (1 - process_id) ∧
     ∀ q, q ≠ process_id → stats (obj w') !! q = stats s !! q) ∧
  (∀ r w',
     unlock process_id (mkWorld s clk tr) = Some (r, w') →
     obj w' = with_flag (<[Z.to_nat process_id := false]> (flag s)) s ∧
     turn (obj w') = turn s ∧
     flag_of (obj w') (1 - process_id) = flag_of s (1 - process_id) ∧
     stats (obj w') = stats s).
Proof.
  intros Hpid Hwf. split.
  - intros r w' Hrun.
    assert (∃ ps, stats s !! process_id = Some ps) as [ps Hst].
    { destruct Hwf as (_ & [? ?] & [? ?]).
      destruct Hpid as [-> | ->]; eauto. }
    destruct (wf_cells s Hwf) as (a & b & Hab).
    destruct (lock_sound _ _ _ _ _ _ _ Hpid Hwf Hst Hrun)
      as [(? & ? & ? & _ & _ & _ & ->)|(_ & _ & -> & _)];
      unfold flag_of, acquired, timed_out; simpl; rewrite Hab.
    all: split; [destruct Hpid as [-> | ->]; reflexivity|].
    all: intros q Hq; apply lookup_insert_ne; congruence.
  - intros r w'. rewrite unlock_releases by done. intros [= <- <-].
    simpl. destruct (wf_cells s Hwf) as (a & b & Hab).
    unfold flag_of, released. simpl. rewrite Hab.
    repeat split. destruct Hpid as [-> | ->]; reflexivity.
Qed.

Lemma lock_unlock_frame_witness :
  (∀ r w',
     lock 0 (mkWorld held_by_1 [0; 1; 6]%Q []) = Some (r, w') →
     flag_of (obj w') (1 - 0) = flag_of held_by_1 (1 - 0) ∧
     ∀ q, q ≠ 0 → stats (obj w') !! q = stats held_by_1 !! q) ∧
  (∀ r w',
     unlock 0 (mkWorld held_by_1 [0; 1; 6]%Q []) = Some (r, w') →
     obj w' = with_flag (<[Z.to_nat 0 := false]> (flag held_by_1))
                        held_by_1 ∧
     turn (obj w') = turn held_by_1 ∧
     flag_of (obj w') (1 - 0) = flag_of held_by_1 (1 - 0) ∧
     stats (obj w') = stats held_by_1).
Proof.
  exact (lock_unlock_frame 0 held_by_1 [0; 1; 6]%Q [] valid_0
                           wf_held_by_1).
Defined.

End LockProperties.

(** ** The protected counter *)

Ltac run_res :=
  repeat (cbv [SharedResource.on_lock zoom SharedResource.get_value
               SharedResource.set_value SharedResource.append_log py_add
               SharedResource.with_value SharedResource.with_lock
               SharedResource.with_access_log];
          run).

Section Increment.
Import SharedResource.
Local Arguments PetersonLock.lock : simpl never.
Local Arguments PetersonLock.unlock : simpl never.

Lemma valid_dec pid : valid pid ∨ ¬ valid pid.
Proof.
  unfold valid. destruct (decide (pid = 0)); [tauto|].
  destruct (decide (pid = 1)); tauto.
Qed.

Lemma wf_stats pid s : valid pid → wf s → is_Some (PetersonLock.stats s !! pid).
Proof. intros [-> | ->] (_ & H0 & H1); done. Qed.

(** Every outcome of [increment] for a caller that runs alone. *)
Lemma increment_sound pid amount r clk tr res w' :
  wf (lock r) →
  increment pid amount (mkWorld r clk tr) = Some (res, w') →
  ∃ t0 clk', clk = t0 :: clk' ∧
  ((¬ valid pid ∧ res = Raise (InvalidProcessId pid) ∧
    w' = mkWorld r clk' tr)
   ∨
   (valid pid ∧ ∃ ps, PetersonLock.stats (lock r) !! pid = Some ps ∧
    ((flag_of (lock r) (1 - pid) = Some true ∧
      res = Raise (LockAcquisitionFailure (LockTimeout pid)) ∧
      obj w' = with_lock (released pid (timed_out pid ps (lock r))) r ∧
      ∃ evs, Forall (λ e, critical_work e = false) evs ∧
             trace w' = tr ++ evs)
     ∨
     (flag_of (lock r) (1 - pid) = Some false ∧
      ∃ t1 t2 rest, clk' = t1 :: t2 :: rest ∧
      let l' := released pid (acquired pid ps (t2 - t1) (lock r)) in
      let enter := [EvSetFlag pid true; EvSetTurn (1 - pid);
                    EvGetFlag (1 - pid) false] in
      ((amount = PyNone ∧ res = Raise TypeError ∧
        w' = mkWorld (with_lock l' r) rest
               (tr ++ enter ++ [EvGetValue (value r); EvSleep (1 # 10);
                                EvSetFlag pid false]))
       ∨
       (∃ n t3 t4 rest',
          amount = PyInt n ∧ rest = t3 :: t4 :: rest' ∧ res = Return tt ∧
          let e := mkLogEntry pid "increment" (PyInt n) t3 (t4 - t0) in
          w' = mkWorld (mk (value r + n) l' (access_log r ++ [e])) rest'
                 (tr ++ enter ++
                    [EvGetValue (value r); EvSleep (1 # 10);
                     EvSetValue (value r + n); EvAppendLog e;
                     EvSetFlag pid false]))))))).
Proof.
  intros Hwf Hrun. destruct clk as [|t0 clk']; [done|].
  exists t0, clk'. split; [done|].
  destruct r as [v l lg]. simpl in *.
  destruct (valid_dec pid) as [Hpid | Hpid].
  - right. split; [done|].
    destruct (wf_stats pid l Hpid Hwf) as [ps Hst]. exists ps.
    split; [done|]. revert Hrun. unfold increment. run_res.
    destruct (PetersonLock.lock pid _) as [[rl wl]|] eqn:Hl; [|done].
    destruct (lock_sound _ _ _ _ _ _ _ Hpid Hwf Hst Hl)
      as [(t1 & t2 & rest & -> & Hf & -> & ->)
         |(Hf & -> & Hobj & evs & Hevs & Htr)].
    + run_res. destruct amount as [n|].
      * run_res. destruct rest as [|t3 [|t4 rest']]; run_res; try done.
        all: rewrite unlock_releases by (try apply wf_acquired; done).
        all: run_res; try done.
        intros [= <- <-]. right. split; [done|].
        exists t1, t2, (t3 :: t4 :: rest'). split; [done|].
        right. exists n, t3, t4, rest'. repeat split.
        repeat (rewrite <- ?app_assoc; simpl). reflexivity.
      * run_res.
        rewrite unlock_releases by (try apply wf_acquired; done).
        run_res. intros [= <- <-]. right. split; [done|].
        exists t1, t2, rest. split; [done|]. left. repeat split.
        repeat (rewrite <- ?app_assoc; simpl). reflexivity.
    + destruct wl as [ol cl trl]. simpl in *. subst. run_res.
      rewrite unlock_releases by (try apply wf_timed_out; done).
      run_res. intros [= <- <-]. left. repeat split; try done.
      exists ([EvSetFlag pid true; EvSetTurn (1 - pid);
               EvGetFlag (1 - pid) true; EvGetTurn (1 - pid)] ++ evs
                ++ [EvSetFlag pid false; EvSetFlag pid false;
                    EvSetFlag pid false]).
      split; [|repeat (rewrite <- ?app_assoc; simpl); reflexivity].
      rewrite !Forall_app. repeat split; try done; repeat constructor.
  - left. revert Hrun. unfold increment. run_res.
    rewrite lock_invalid by done. run_res.
    rewrite unlock_invalid by done. run_res.
    intros [= <- <-]. done.
Qed.

Lemma increment_returns pid n r ps t0 t1 t2 t3 t4 rest tr :
  valid pid → wf (lock r) →
  flag_of (lock r) (1 - pid) = Some false →
  PetersonLock.stats (lock r) !! pid = Some ps →
  let e := mkLogEntry pid "increment" (PyInt n) t3 (t4 - t0) in
  increment pid (PyInt n)
      (mkWorld r (t0 :: t1 :: t2 :: t3 :: t4 :: rest) tr) =
    Some (Return tt,
          mkWorld (mk (value r + n)
                      (released pid (acquired pid ps (t2 - t1) (lock r)))
                      (access_log r ++ [e]))
                  rest
                  (tr ++ [EvSetFlag pid true; EvSetTurn (1 - pid);
                          EvGetFlag (1 - pid) false;
                          EvGetValue (value r); EvSleep (1 # 10);
                          EvSetValue (value r + n); EvAppendLog e;
                          EvSetFlag pid false])).
Proof.
  intros Hpid Hwf Hf Hst e. destruct r as [v l lg]. simpl in *.
  unfold increment. run_res.
  rewrite (lock_enters pid l ps t1 t2) by done. run_res.
  rewrite unlock_releases by (try apply wf_acquired; done). run_res.
  repeat (rewrite <- ?app_assoc; simpl). reflexivity.
Qed.

Lemma increment_type_error pid r ps t0 t1 t2 rest tr :
  valid pid → wf (lock r) →
  flag_of (lock r) (1 - pid) = Some false →
  PetersonLock.stats (lock r) !! pid = Some ps →
  increment pid PyNone (mkWorld r (t0 :: t1 :: t2 :: rest) tr) =
    Some (Raise TypeError,
          mkWorld (with_lock
                     (released pid (acquired pid ps (t2 - t1) (lock r))) r)
                  rest
                  (tr ++ [EvSetFlag pid true; EvSetTurn (1 - pid);
                          EvGetFlag (1 - pid) false;
                          EvGetValue (value r); EvSleep (1 # 10);
                          EvSetFlag pid false])).
Proof.
  intros Hpid Hwf Hf Hst. destruct r as [v l lg]. simpl in *.
  unfold increment. run_res.
  rewrite (lock_enters pid l ps t1 t2) by done. run_res.
  rewrite unlock_releases by (try apply wf_acquired; done). run_res.
  repeat (rewrite <- ?app_assoc; simpl). reflexivity.
Qed.

(** C6. When [increment] acquires the lock, it reads the counter, does the
    simulated work, writes back the value read plus [amount], appends one
    entry with the identity, the operation name, the amount, the timestamp
    and the duration since the call began, and releases; these accesses
    happen in this order. When a step after the acquisition fails (here
    [current + amount] on an [amount] that is not a number) the lock is
    released all the same and the error of that step is what the caller
    gets. On every exit of [increment] the caller's flag is false. *)
Theorem increment_critical_section (process_id n : Z) (r : t)
    (ps : ProcessStats) (t0 t1 t2 t3 t4 : Q) (rest : list Q)
    (tr : list event) :
  valid process_id → wf (lock r) →
  flag_of (lock r) (1 - process_id) = Some false →
  PetersonLock.stats (lock r) !! process_id = Some ps →
  let e := mkLogEntry process_id "increment" (PyInt n) t3 (t4 - t0) in
  let enter := [EvSetFlag process_id true; EvSetTurn (1 - process_id);
                EvGetFlag (1 - process_id) false] in
  (∃ w',
     increment process_id (PyInt n)
         (mkWorld r (t0 :: t1 :: t2 :: t3 :: t4 :: rest) tr) =
       Some (Return tt, w') ∧
     value (obj w') = value r + n ∧
     access_log (obj w') = access_log r ++ [e] ∧
     flag_of (lock (obj w')) process_id = Some false ∧
     trace w' = tr ++ enter ++
                  [EvGetValue (value r); EvSleep (1 # 10);
                   EvSetValue (value r + n); EvAppendLog e;
                   EvSetFlag process_id false]) ∧
  (∃ w',
     increment process_id PyNone (mkWorld r (t0 :: t1 :: t2 :: rest) tr) =
       Some (Raise TypeError, w') ∧
     value (obj w') = value r ∧
     access_log (obj w') = access_log r ∧
     flag_of (lock (obj w')) process_id = Some false ∧
     trace w' = tr ++ enter ++
                  [EvGetValue (value r); EvSleep (1 # 10);
                   EvSetFlag process_id false]) ∧
  (∀ amount clk res w',
     increment process_id amount (mkWorld r clk tr) = Some (res, w') →
     flag_of (lock (obj w')) process_id = Some false).
Proof.
  intros Hpid Hwf Hf Hst e enter.
  destruct (wf_cells _ Hwf) as (a & b & Hab).
  assert (∀ l, PetersonLock.flag l = [a; b] ∨
               PetersonLock.flag l = <[Z.to_nat process_id := true]> [a; b] ∨
               PetersonLock.flag l = <[Z.to_nat process_id := false]> [a; b] →
               flag_of (released process_id l) process_id = Some false)
    as Hrel.
  { intros l Hl. unfold flag_of, released. simpl.
    destruct Hpid as [-> | ->];
      destruct Hl as [-> | [-> | ->]]; reflexivity. }
  split; [|split].
  - eexists. split; [apply increment_returns; done|].
    simpl. repeat split. apply Hrel. simpl. rewrite Hab. tauto.
  - eexists. split; [apply increment_type_error; done|].
    simpl. repeat split. apply Hrel. simpl. rewrite Hab. tauto.
  - intros amount clk res w' Hrun.
    destruct (increment_sound _ _ _ _ _ _ _ Hwf Hrun)
      as (u0 & clk' & -> & [(Hn & _)|(_ & ps' & Hst' & Hcase)]); [done|].
    destruct Hcase
      as [(_ & _ & -> & _)
         |(_ & u1 & u2 & rest' & -> & [(_ & _ & ->)
                                      |(? & ? & ? & ? & _ & _ & _ & ->)])];
      simpl; apply Hrel; simpl; rewrite Hab; tauto.
Qed.

(** C7. When the [lock] inside [increment] raises, for an invalid identity
    or on a timeout, [increment] raises that error to its caller, the
    counter and the access log are as before, and the call did no work of
    the critical section. In particular [increment(2)] on a new resource
    raises the error of an invalid identity and leaves the resource as
    [__init__] made it. *)
Theorem increment_acquire_fails (process_id : Z) (amount : pyval) (r : t)
    (t0 : Q) (clk : list Q) (tr : list event) (e : exn)
    (wl : World PetersonLock.t) :
  wf (lock r) →
  PetersonLock.lock process_id (mkWorld (lock r) clk tr) =
    Some (Raise e, wl) →
  (∃ w',
     increment process_id amount (mkWorld r (t0 :: clk) tr) =
       Some (Raise e, w') ∧
     value (obj w') = value r ∧
     access_log (obj w') = access_log r ∧
     ∃ evs, trace w' = tr ++ evs ∧
            Forall (λ ev, critical_work ev = false) evs) ∧
  increment_default 2 (mkWorld init [t0] []) =
    Some (Raise (InvalidProcessId 2), mkWorld init [] []).
Proof.
  intros Hwf Hl. split; [|reflexivity].
  destruct r as [v l lg]. simpl in *.
  destruct (valid_dec process_id) as [Hpid | Hpid].
  - destruct (wf_stats process_id l Hpid Hwf) as [ps Hst].
    destruct (lock_sound _ _ _ _ _ _ _ Hpid Hwf Hst Hl)
      as [(? & ? & ? & _ & _ & [=] & _)
         |(Hf & [= ->] & Hobj & evs & Hevs & Htr)].
    destruct wl as [ol cl trl]. simpl in *. subst.
    eexists. split.
    + unfold increment. run_res. rewrite Hl. run_res.
      rewrite unlock_releases by (try apply wf_timed_out; done).
      run_res. reflexivity.
    + simpl. repeat split.
      exists ([EvSetFlag process_id true; EvSetTurn (1 - process_id);
               EvGetFlag (1 - process_id) true;
               EvGetTurn (1 - process_id)] ++ evs
                ++ [EvSetFlag process_id false; EvSetFlag process_id false;
                    EvSetFlag process_id false]).
      split; [repeat (rewrite <- ?app_assoc; simpl); reflexivity|].
      rewrite !Forall_app. repeat split; try done; repeat constructor.
  - rewrite lock_invalid in Hl by done. injection Hl as <- <-.
    eexists. split.
    + unfold increment. run_res. rewrite lock_invalid by done. run_res.
      rewrite unlock_invalid by done. run_res. reflexivity.
    + simpl. repeat split. exists []. rewrite app_nil_r. split; constructor.
Qed.

Lemma increment_critical_section_witness :
  ∃ w',
    increment 0 (PyInt 1) (mkWorld init [0; 1; 2; 3; 4]%Q []) =
      Some (Return tt, w') ∧
    value (obj w') = 0 + 1 ∧
    flag_of (lock (obj w')) 0 = Some false.
Proof.
  destruct (increment_critical_section 0 1 init (mkProcessStats 0 0 0)
              0%Q 1%Q 2%Q 3%Q 4%Q [] [] valid_0 wf_init eq_refl eq_refl)
    as ((w' & H1 & H2 & _ & H3 & _) & _).
  exists w'. split; [exact H1|]. split; [exact H2 | exact H3].
Defined.

Lemma increment_acquire_fails_witness :
  ∃ w',
    increment 2 (PyInt 1) (mkWorld init [0]%Q []) =
      Some (Raise (InvalidProcessId 2), w') ∧
    value (obj w') = value init ∧
    access_log (obj w') = access_log init.
Proof.
  destruct (increment_acquire_fails 2 (PyInt 1) init 0%Q [] []
              (InvalidProcessId 2) (mkWorld PetersonLock.init [] [])
              wf_init eq_refl)
    as ((w' & H1 & H2 & H3 & _) & _).
  exists w'. split; [exact H1|]. split; [exact H2 | exact H3].
Defined.

(** *** Increments in sequence *)

Lemma quiet_init : quiet init.
Proof. split; [exact wf_init | reflexivity]. Qed.

Lemma quiet_after pid ps el l :
  valid pid → wf l → PetersonLock.flag l = [false; false] →
  wf (released pid (acquired pid ps el l)) ∧
  PetersonLock.flag (released pid (acquired pid ps el l)) = [false; false].
Proof.
  intros Hpid Hwf Hfl. split.
  - apply wf_released, wf_acquired; done.
  - unfold released, acquired. simpl. rewrite Hfl.
    destruct Hpid as [-> | ->]; reflexivity.
Qed.

Lemma run_increments_sum sched :
  ∀ r clk tr,
  quiet r →
  Forall (λ c, valid c.1) sched →
  (5 * length sched ≤ length clk)%nat →
  ∃ w',
    run_increments sched (mkWorld r clk tr) = Some (Return tt, w') ∧
    value (obj w') = value r + sum_list (sched.*2) ∧
    quiet (obj w').
Proof.
  induction sched as [|[p a] sched IH]; intros r clk tr Hq Hval Hlen.
  - eexists. split; [reflexivity|]. simpl. split; [lia | done].
  - apply Forall_cons in Hval as [Hp Hval]. simpl in Hp, Hlen.
    destruct clk as [|t0 [|t1 [|t2 [|t3 [|t4 clk]]]]];
      simpl in Hlen; try lia.
    destruct Hq as [Hwf Hfl].
    destruct (wf_stats p _ Hp Hwf) as [ps Hst].
    assert (flag_of (lock r) (1 - p) = Some false) as Hf.
    { unfold flag_of. rewrite Hfl. destruct Hp as [-> | ->]; reflexivity. }
    destruct (quiet_after p ps (t2 - t1)%Q (lock r) Hp Hwf Hfl) as [Hwf' Hfl'].
    edestruct (IH (mk (value r + a)
                      (released p (acquired p ps (t2 - t1)%Q (lock r)))
                      (access_log r ++
                         [mkLogEntry p "increment" (PyInt a) t3
                                     (t4 - t0)%Q]))
                  clk) as (w' & Hrun & Hv & Hq');
      [split; eassumption | exact Hval | lia |].
    exists w'. split; [|split; [|exact Hq']].
    + simpl. cbv [mbind M_bind bind].
      rewrite (increment_returns p a r ps) by done. exact Hrun.
    + rewrite Hv. cbn. lia.
Qed.

Lemma Interleave_sum (l0 l1 l : list (Z * Z)) :
  Interleave l0 l1 l →
  sum_list (l.*2) = sum_list (l0.*2) + sum_list (l1.*2).
Proof. induction 1; cbn in *; lia. Qed.

Lemma Interleave_Forall {A} (P : A → Prop) (l0 l1 l : list A) :
  Interleave l0 l1 l → Forall P l0 → Forall P l1 → Forall P l.
Proof.
  induction 1; intros H0 H1; [constructor|..].
  - apply Forall_cons in H0 as [? ?]. constructor; auto.
  - apply Forall_cons in H1 as [? ?]. constructor; auto.
Qed.

Lemma Interleave_length {A} (l0 l1 l : list A) :
  Interleave l0 l1 l → length l = (length l0 + length l1)%nat.
Proof. induction 1; simpl; lia. Qed.

Lemma tagged_amounts (p : Z) (a : list Z) : (pair p <$> a).*2 = a.
Proof. induction a as [|x a IH]; [reflexivity|]. cbn. f_equal. exact IH. Qed.

Lemma tagged_valid (p : Z) (a : list Z) :
  valid p → Forall (λ c : Z * Z, valid c.1) (pair p <$> a).
Proof. intros Hp. induction a; constructor; done. Qed.

(** C4. Identity 0 makes the increments [a] and identity 1 the increments
    [b], on a new resource, one increment at a time in any order that keeps
    each identity's own order. Every increment succeeds and the counter
    ends at [sum a + sum b]; with [a = b = [1;1;1]] it ends at 6. *)
Theorem serialized_increments_sum (a b : list Z) (sched : list (Z * Z))
    (clk : list Q) :
  Interleave (pair 0 <$> a) (pair 1 <$> b) sched →
  (5 * (length a + length b) ≤ length clk)%nat →
  ∃ w',
    run_increments sched (mkWorld init clk []) = Some (Return tt, w') ∧
    value (obj w') = sum_list a + sum_list b ∧
    (a = [1; 1; 1] → b = [1; 1; 1] → value (obj w') = 6).
Proof.
  intros Hi Hlen.
  destruct (run_increments_sum sched init clk [] quiet_init)
    as (w' & Hrun & Hv & _).
  - eapply Interleave_Forall; [exact Hi|apply tagged_valid..].
    + exact valid_0.
    + exact valid_1.
  - rewrite (Interleave_length _ _ _ Hi), !length_fmap. exact Hlen.
  - exists w'. split; [exact Hrun|].
    rewrite (Interleave_sum _ _ _ Hi), !tagged_amounts in Hv.
    simpl in Hv. split; [lia|]. intros -> ->. rewrite Hv. reflexivity.
Qed.

Lemma serialized_increments_sum_witness :
  ∃ w',
    run_increments [(0, 1); (1, 1); (1, 1); (0, 1); (0, 1); (1, 1)]
        (mkWorld init (replicate 30 0%Q) []) = Some (Return tt, w') ∧
    value (obj w') = sum_list [1; 1; 1] + sum_list [1; 1; 1] ∧
    ([1; 1; 1] = [1; 1; 1] → [1; 1; 1] = [1; 1; 1] → value (obj w') = 6).
Proof.
  apply (serialized_increments_sum [1; 1; 1] [1; 1; 1]).
  - apply Interleave_left, Interleave_right, Interleave_right,
      Interleave_left, Interleave_left, Interleave_right, Interleave_nil.
  - simpl. lia.
Defined.

(** The driver's loop, one thread alone: three increments, then the
    counter holds their sum. *)
Example run_test_case_alone :
  ∃ w',
    run_test_case 0 [PyInt 2; PyInt 3; PyInt 4] (1 # 5)
        (mkWorld init (replicate 15 0%Q) []) = Some (Return tt, w') ∧
    value (obj w') = 9.
Proof. eexists. split; [vm_compute; reflexivity | reflexivity]. Qed.

(** *** Statistics *)

Lemma stats_step (p pid : Z) (ps ps1 : ProcessStats)
    (st : gmap Z ProcessStats) ps' :
  st !! pid = Some ps →
  entries ps1 + fails ps1 ≤ entries ps + fails ps + 1 →
  <[pid := ps1]> st !! p = Some ps' →
  ∃ ps0, st !! p = Some ps0 ∧
         entries ps' + fails ps' ≤
           entries ps0 + fails ps0 + (if p =? pid then 1 else 0).
Proof.
  intros Hst Hle Hl. destruct (Z.eqb_spec p pid) as [-> | Hne].
  - rewrite lookup_insert_eq in Hl. injection Hl as <-. eauto.
  - rewrite lookup_insert_ne in Hl by congruence.
    exists ps'. split; [done | lia].
Qed.

Lemma stats_same (st : gmap Z ProcessStats) p ps' (k : Z) :
  0 ≤ k → st !! p = Some ps' →
  ∃ ps0, st !! p = Some ps0 ∧
         entries ps' + fails ps' ≤ entries ps0 + fails ps0 + k.
Proof. intros Hk H. exists ps'. split; [done | lia]. Qed.

Lemma if_nonneg (b : bool) : 0 ≤ (if b then 1 else 0).
Proof. destruct b; lia. Qed.

(** One call keeps the lock well formed and adds at most one to
    [entries + fails] of the identity that attempts an acquisition. *)
Lemma run_call_stats c w res w' :
  wf (lock (obj w)) →
  run_call c w = Some (res, w') →
  wf (lock (obj w')) ∧
  ∀ p ps', PetersonLock.stats (lock (obj w')) !! p = Some ps' →
    ∃ ps, PetersonLock.stats (lock (obj w)) !! p = Some ps ∧
          entries ps' + fails ps' ≤
            entries ps + fails ps + (if is_attempt p c then 1 else 0).
Proof.
  intros Hwf Hrun. destruct w as [r clk tr]. simpl in Hwf.
  destruct c as [pid amount | pid | pid |]; simpl in Hrun.
  - destruct (increment_sound _ _ _ _ _ _ _ Hwf Hrun)
      as (t0 & clk' & -> & [(Hn & _ & ->)|(Hpid & ps & Hst & Hcase)]).
    { split; [done|]. intros p ps' H. apply stats_same; [|done].
      apply if_nonneg. }
    destruct Hcase
      as [(_ & _ & Hobj & _)
         |(_ & u1 & u2 & rest' & -> & [(_ & _ & ->)
                                      |(? & ? & ? & ? & _ & _ & _ & ->)])].
    + rewrite Hobj. simpl. split.
      { apply wf_released, wf_timed_out; done. }
      intros p ps'. eapply stats_step; [eassumption | simpl; lia].
    + simpl. split.
      { apply wf_released, wf_acquired; done. }
      intros p ps'. eapply stats_step; [eassumption | simpl; lia].
    + simpl. split.
      { apply wf_released, wf_acquired; done. }
      intros p ps'. eapply stats_step; [eassumption | simpl; lia].
  - revert Hrun. run_res.
    destruct (PetersonLock.lock pid _) as [[rl wl]|] eqn:Hl; [|done].
    destruct (valid_dec pid) as [Hpid | Hpid].
    + destruct (wf_stats pid _ Hpid Hwf) as [ps Hst].
      destruct (lock_sound _ _ _ _ _ _ _ Hpid Hwf Hst Hl)
        as [(? & ? & ? & _ & _ & -> & ->)|(_ & -> & Hobj & _)].
      * run_res. intros [= <- <-]. simpl. split.
        { apply wf_acquired; done. }
        intros p ps'. eapply stats_step; [eassumption | simpl; lia].
      * run_res. intros [= <- <-]. simpl. rewrite Hobj. split.
        { apply wf_timed_out; done. }
        intros p ps'. eapply stats_step; [eassumption | simpl; lia].
    + rewrite lock_invalid in Hl by done. injection Hl as <- <-.
      run_res. intros [= <- <-]. simpl. destruct r. split; [done|].
      intros p ps' H. apply stats_same; [|done]. apply if_nonneg.
  - destruct (valid_dec pid) as [Hpid | Hpid]; revert Hrun; run_res.
    + rewrite unlock_releases by done. intros [= <- <-]. simpl.
      split; [apply wf_released; done|].
      intros p ps' H. apply stats_same; [lia | done].
    + rewrite unlock_invalid by done. intros [= <- <-]. simpl.
      destruct r. split; [done|].
      intros p ps' H. apply stats_same; [lia | done].
  - revert Hrun. unfold PetersonLock.get_stats. run_res.
    intros [= <- <-]. simpl. destruct r. split; [done|].
    intros p ps' H. apply stats_same; [lia | done].
Qed.

Lemma run_calls_stats cs :
  ∀ w res w',
  wf (lock (obj w)) →
  run_calls cs w = Some (res, w') →
  ∀ p ps', PetersonLock.stats (lock (obj w')) !! p = Some ps' →
    ∃ ps, PetersonLock.stats (lock (obj w)) !! p = Some ps ∧
          entries ps' + fails ps' ≤ entries ps + fails ps + attempts p cs.
Proof.
  induction cs as [|c cs IH]; intros w res w' Hwf Hrun p ps' Hp.
  - injection Hrun as <- <-. exists ps'. simpl. split; [done | lia].
  - simpl in Hrun. cbv [mbind M_bind bind try_except] in Hrun.
    destruct (run_call c w) as [[rc wc]|] eqn:Hc; [|done].
    destruct (run_call_stats _ _ _ _ Hwf Hc) as [Hwfc Hstep].
    assert (run_calls cs wc = Some (res, w')) as Hrest.
    { destruct rc; exact Hrun. }
    destruct (IH _ _ _ Hwfc Hrest p ps' Hp) as (psc & Hpc & Hle).
    destruct (Hstep p psc Hpc) as (ps & Hps & Hle').
    exists ps. split; [done|]. simpl. lia.
Qed.

Lemma get_stats_view (w : World PetersonLock.t) p ps :
  PetersonLock.stats (obj w) !! p = Some ps →
  ∃ v,
    PetersonLock.get_stats w = Some (Return v, w) ∧
    v !! p = Some (PetersonLock.view ps).
Proof.
  intros Hp. eexists. split; [reflexivity|].
  rewrite lookup_fmap, Hp. reflexivity.
Qed.

Lemma init_stats p ps :
  PetersonLock.stats PetersonLock.init !! p = Some ps →
  entries ps + fails ps = 0.
Proof.
  unfold PetersonLock.init. simpl. intros H.
  apply lookup_insert_Some in H as [[_ <-]|[_ H]]; [reflexivity|].
  apply lookup_singleton_Some in H as [_ <-]. reflexivity.
Qed.

(** C9. After any sequence of calls on a new resource, for every identity
    [entries + fails] is at most the number of acquisitions the identity
    attempted. [get_stats] returns, for each identity, [entries], [fails]
    and the average wait, which is [wait_time / entries] when
    [entries > 0] and [0] when [entries] is 0, and leaves the lock, the
    clock and the trace exactly as they were. *)
Theorem statistics_consistent (cs : list call) (clk : list Q)
    (res : result unit) (w' : World t) (p : Z) (ps : ProcessStats) :
  run_calls cs (mkWorld init clk []) = Some (res, w') →
  PetersonLock.stats (lock (obj w')) !! p = Some ps →
  entries ps + fails ps ≤ attempts p cs ∧
  ∃ v sv,
    let wl := mkWorld (lock (obj w')) (clock w') (trace w') in
    PetersonLock.get_stats wl = Some (Return v, wl) ∧
    v !! p = Some sv ∧
    view_entries sv = entries ps ∧
    view_fails sv = fails ps ∧
    (entries ps > 0 →
     avg_wait_time sv = (wait_time ps / inject_Z (entries ps))%Q) ∧
    (entries ps = 0 → avg_wait_time sv = 0%Q).
Proof.
  intros Hrun Hp. split.
  - destruct (run_calls_stats cs (mkWorld init clk []) _ _ wf_init Hrun
                p ps Hp)
      as (ps0 & Hps0 & Hle).
    apply init_stats in Hps0. lia.
  - destruct (get_stats_view
                (mkWorld (lock (obj w')) (clock w') (trace w')) p ps Hp)
      as (v & Hv & Hl).
    exists v, (PetersonLock.view ps). simpl.
    split; [exact Hv|]. split; [exact Hl|].
    split; [reflexivity|]. split; [reflexivity|].
    unfold PetersonLock.view. simpl. split.
    + intros H. destruct (Z.gtb_spec (entries ps) 0); [reflexivity | lia].
    + intros ->. reflexivity.
Qed.

Lemma statistics_consistent_witness :
  ∃ res w' ps,
    run_calls [CallIncrement 0 (PyInt 1); CallLock 1; CallLock 0;
               CallGetStats]
        (mkWorld init [0; 0; 0; 0; 0; 0; 0; 0; 1; 6]%Q []) =
      Some (res, w') ∧
    PetersonLock.stats (lock (obj w')) !! 0 = Some ps ∧
    entries ps = 1 ∧ fails ps = 1 ∧
    entries ps + fails ps ≤
      attempts 0 [CallIncrement 0 (PyInt 1); CallLock 1; CallLock 0;
                  CallGetStats].
Proof.
  eassert (run_calls [CallIncrement 0 (PyInt 1); CallLock 1; CallLock 0;
                      CallGetStats]
             (mkWorld init [0; 0; 0; 0; 0; 0; 0; 0; 1; 6]%Q []) =
           Some (_, _)) as Hrun by (vm_compute; reflexivity).
  match type of Hrun with
  | _ = Some (_, ?w) =>
      eassert (PetersonLock.stats (lock (obj w)) !! 0 = Some _) as Hps
        by (vm_compute; reflexivity)
  end.
  do 3 eexists. split; [exact Hrun|]. split; [exact Hps|].
  split; [reflexivity|]. split; [reflexivity|].
  exact (proj1 (statistics_consistent _ _ _ _ _ _ Hrun Hps)).
Defined.

End Increment.

(** ** The two threads: mutual exclusion *)

Section MutualExclusion.
Import Threads.

Lemma inv_initial ops0 ops1 : inv (initial ops0 ops1).
Proof.
  exists false, false. simpl. repeat split; try discriminate. left. done.
Qed.

Lemma contending_flag_raised p : contending p = true → flag_raised p = true.
Proof. destruct p as [| | | | | | | | | | | | | | | | | | | [|] | |]; done. Qed.

Lemma critical_contending p :
  in_critical_section p = true → contending p = true.
Proof. destruct p as [| | | | | | | | | | | | | | | | | | | [|] | |]; done. Qed.

Ltac inv_solve :=
  unfold inv; simpl;
  change (Z.to_nat 0) with 0%nat; change (Z.to_nat 1) with 1%nat; simpl;
  eexists _, _; split; [reflexivity|];
  repeat split; intros; try discriminate; try assumption;
  repeat match goal with
         | H : ?x = ?x → _ |- _ => specialize (H eq_refl)
         | H : false = true → _ |- _ => clear H
         end;
  try congruence; try tauto; try lia.

Lemma inv_step who now c : inv c → inv (step who now c).
Proof.
  intros (a & b & Hfl & Hturn & H0 & H1 & Hc0 & Hc1).
  destruct c as [[v [fl tn st tmo] lg] th0 th1]. simpl in *. subst fl.
  unfold step. destruct (Z.eqb_spec who 0) as [-> | _];
    [|destruct (Z.eqb_spec who 1) as [-> | _]].
  - pose proof (contending_flag_raised (at_pc th1)) as Hcf.
    pose proof (critical_contending (at_pc th1)) as Hcc.
    destruct th0 as [pc0 ops0 am0 is0 ls0 cu0 ts0]. simpl in *.
    destruct (in_critical_section (at_pc th1)) eqn:Ecs,
             (contending (at_pc th1)) eqn:Ect,
             (flag_raised (at_pc th1)) eqn:Efr;
      try (specialize (Hcf eq_refl)); try (specialize (Hcc eq_refl));
      try discriminate.
    all: destruct pc0 as [| | | | | | | | | | | | | | | | | | | raised | |];
      unfold thread_step; simpl in *;
      change (1 - 0) with 1; change (Z.to_nat 1) with 1%nat; simpl.
    all: try (destruct ops0).
    all: try (destruct b eqn:Eb).
    all: try (destruct (Z.eqb_spec tn 1)).
    all: try (destruct (Qgt_bool _ _)).
    all: try (destruct raised).
    all: inv_solve.
  - pose proof (contending_flag_raised (at_pc th0)) as Hcf.
    pose proof (critical_contending (at_pc th0)) as Hcc.
    destruct th1 as [pc1 ops1 am1 is1 ls1 cu1 ts1]. simpl in *.
    destruct (in_critical_section (at_pc th0)) eqn:Ecs,
             (contending (at_pc th0)) eqn:Ect,
             (flag_raised (at_pc th0)) eqn:Efr;
      try (specialize (Hcf eq_refl)); try (specialize (Hcc eq_refl));
      try discriminate.
    all: destruct pc1 as [| | | | | | | | | | | | | | | | | | | raised | |];
      unfold thread_step; simpl in *;
      change (1 - 1) with 0; change (Z.to_nat 0) with 0%nat; simpl.
    all: try (destruct ops1).
    all: try (destruct a eqn:Ea).
    all: try (destruct (Z.eqb_spec tn 0)).
    all: try (destruct (Qgt_bool _ _)).
    all: try (destruct raised).
    all: inv_solve.
  - exists a, b. simpl. repeat split; assumption.
Qed.

Lemma inv_run schedule : ∀ c, inv c → inv (run schedule c).
Proof.
  induction schedule as [|[who now] schedule IH]; intros c Hc; [exact Hc|].
  simpl. apply IH, inv_step, Hc.
Qed.

(** C1. Whatever the operations of the two threads and however the
    scheduler interleaves their accesses to shared memory and whatever the
    clock reads, in no configuration they reach are both threads between
    the exit of the wait loop of [lock] and the releasing write of
    [unlock]. *)
Theorem mutual_exclusion (operations0 operations1 : list Z)
    (schedule : list (Z * Q)) :
  let c := run schedule (initial operations0 operations1) in
  ¬ (in_critical_section (at_pc (thread0 c)) = true ∧
     in_critical_section (at_pc (thread1 c)) = true).
Proof.
  intros c [Hcs0 Hcs1].
  destruct (inv_run schedule _ (inv_initial operations0 operations1))
    as (a & b & _ & _ & _ & _ & Hc0 & Hc1).
  fold c in Hc0, Hc1.
  pose proof (Hc0 Hcs0 (critical_contending _ Hcs1)).
  pose proof (Hc1 Hcs1 (critical_contending _ Hcs0)).
  congruence.
Qed.


(** The critical section is reached, and while one thread is in it the
    other waits: thread 0 runs up to its sleep in the critical section,
    then thread 1 runs and polls. *)
Example thread1_waits :
  let c := run (replicate 9 (0, 0%Q) ++ replicate 12 (1, 0%Q))
               (initial [1] [1]) in
  at_pc (thread0 c) = L94 ∧ at_pc (thread1 c) = L49 ∧
  in_critical_section (at_pc (thread0 c)) = true ∧
  contending (at_pc (thread1 c)) = true.
Proof. vm_compute. done. Qed.

(** Both threads run to the end, taking turns one transition each. *)
Example both_finish :
  let c := run (concat (replicate 100 [(0, 0%Q); (1, 0%Q)]))
               (initial [2; 3; 4] [1; 2; 3]) in
  at_pc (thread0 c) = Done ∧ at_pc (thread1 c) = Done ∧
  SharedResource.value (shared c) = 15.
Proof. vm_compute. done. Qed.

(** Thread 1 waits while thread 0 is in its critical section, and enters
    after thread 0 has released; the time it waited is added to its
    [wait_time]. *)
Example thread1_enters_after_waiting :
  let c := run (replicate 9 (0, 0%Q) ++ replicate 12 (1, 1%Q)
                  ++ replicate 5 (0, 2%Q) ++ replicate 4 (1, 4%Q))
               (initial [1] [1]) in
  at_pc (thread0 c) = L120 ∧ at_pc (thread1 c) = L93 ∧
  PetersonLock.stats (SharedResource.lock (shared c)) !! 1 =
    Some (mkProcessStats 1 (0 + (4 - 1)) 0).
Proof. vm_compute. done. Qed.

(** Thread 0 waits past the timeout while thread 1 holds the lock, gives
    up, and leaves its flag down. *)
Example thread0_times_out :
  let c := run (replicate 9 (1, 0%Q) ++ replicate 7 (0, 0%Q)
                  ++ replicate 5 (0, 6%Q))
               (initial [1] [1]) in
  at_pc (thread0 c) = Idle ∧ at_pc (thread1 c) = L94 ∧
  PetersonLock.flag (SharedResource.lock (shared c)) = [false; true] ∧
  fails <$> PetersonLock.stats (SharedResource.lock (shared c)) !! 0
    = Some 1.
Proof. vm_compute. done. Qed.

Lemma alter_found (f : ProcessStats → ProcessStats)
    (m : gmap Z ProcessStats) i x :
  m !! i = Some x → alter f i m = <[i := f x]> m.
Proof.
  intros H. apply map_eq. intros j. destruct (decide (i = j)) as [<- | Hne].
  - rewrite lookup_alter_eq, lookup_insert_eq, H. reflexivity.
  - rewrite lookup_alter_ne, lookup_insert_ne by done. reflexivity.
Qed.

(** The two layers agree: a thread that takes, undisturbed, the fourteen
    transitions of one [increment] leaves the resource as the call
    [increment] does. *)
Lemma thread_increment_agrees p n ops r ps t0 t1 t2 t3 t4 rest tr th :
  valid p → wf (SharedResource.lock r) →
  flag_of (SharedResource.lock r) (1 - p) = Some false →
  PetersonLock.stats (SharedResource.lock r) !! p = Some ps →
  at_pc th = Idle → operations th = n :: ops →
  ∃ w' th',
    SharedResource.increment p (PyInt n)
        (mkWorld r (t0 :: t1 :: t2 :: t3 :: t4 :: rest) tr) =
      Some (Return tt, w') ∧
    thread_run p [0; t0; t1; 0; 0; 0; 0; t2; 0; 0; 0; t3; t4; 0]%Q th r =
      (th', obj w') ∧
    at_pc th' = L120 ∧ operations th' = ops.
Proof.
  intros Hp Hwf Hf Hst Hpc Hops.
  destruct (wf_cells _ Hwf) as (a & b & Hab).
  destruct r as [v [fl tn st tmo] lg].
  destruct th as [pc0 ops0 am0 is0 ls0 cu0 ts0].
  unfold flag_of in Hf. simpl in *. subst fl pc0 ops0.
  destruct Hp as [Hp | Hp]; subst p; simpl in Hf; injection Hf as ->.
  all: eexists _, _;
    (split; [apply (increment_returns _ n _ ps);
             first [exact valid_0 | exact valid_1 | done]|]).
  all: unfold thread_run, released, acquired.
  - repeat (cbn; unfold on_stats, on_flag, goto;
            change (Z.to_nat (1 - 0)) with 1%nat;
            change (Z.to_nat 0) with 0%nat; change (1 - 0) with 1).
    rewrite (alter_found _ st 0 ps) by done.
    rewrite (alter_found _ _ 0 _) by apply lookup_insert_eq.
    rewrite insert_insert_eq.
    cbv [PetersonLock.with_flag PetersonLock.with_turn
         PetersonLock.with_stats SharedResource.with_lock
         SharedResource.with_value SharedResource.with_access_log].
    cbn. done.
  - repeat (cbn; unfold on_stats, on_flag, goto;
            change (Z.to_nat (1 - 1)) with 0%nat;
            change (Z.to_nat 1) with 1%nat; change (1 - 1) with 0).
    rewrite (alter_found _ st 1 ps) by done.
    rewrite (alter_found _ _ 1 _) by apply lookup_insert_eq.
    rewrite insert_insert_eq.
    cbv [PetersonLock.with_flag PetersonLock.with_turn
         PetersonLock.with_stats SharedResource.with_lock
         SharedResource.with_value SharedResource.with_access_log].
    cbn. done.
Qed.


(** *** The counter under interleaving *)

Lemma holds_current_critical p :
  holds_current p = true → in_critical_section p = true.
Proof. destruct p as [| | | | | | | | | | | | | | | | | | | [|] | |]; done. Qed.

Lemma accounted_initial ops0 ops1 :
  accounted (sum_list ops0 + sum_list ops1) (initial ops0 ops1).
Proof.
  unfold accounted. simpl. repeat split; try discriminate.
  exists (mkProcessStats 0 0 0), (mkProcessStats 0 0 0).
  repeat split; try done. left. unfold todo. simpl. lia.
Qed.

Ltac split_if :=
  repeat match goal with
         | |- context [match ?l with [] => _ | _ :: _ => _ end] =>
             destruct l eqn:?
         | |- context [if ?b then _ else _] => destruct b eqn:?
         end.

Ltac use_premises :=
  repeat match goal with
         | H : ?x = ?x → _ |- _ => specialize (H eq_refl)
         | H : false = true → _ |- _ => clear H
         end.

Ltac acc_solve :=
  unfold accounted, todo; simpl;
  rewrite ?lookup_alter_eq, ?lookup_alter_ne by done;
  repeat match goal with
         | H : _ !! _ = Some _ |- _ => rewrite H
         end;
  simpl in *; use_premises;
  repeat split; try discriminate; try assumption;
  try (eexists _, _; repeat split; try reflexivity; simpl);
  try solve [intuition (lia || congruence)].

Lemma accounted_step total who now c :
  inv c → accounted total c → accounted total (step who now c).
Proof.
  intros (a & b & Hfl & Hturn & H0 & H1 & Hc0 & Hc1)
         (Hcur0 & Hcur1 & Hd0 & Hd1 & s0 & s1 & Hs0 & Hs1 & Hf0 & Hf1 & Hsum).
  destruct c as [[v [fl tn st tmo] lg] th0 th1]. simpl in *. subst fl.
  unfold step. destruct (Z.eqb_spec who 0) as [-> | _];
    [|destruct (Z.eqb_spec who 1) as [-> | _]].
  - pose proof (holds_current_critical (at_pc th1)) as Hhc.
    pose proof (critical_contending (at_pc th1)) as Hcc.
    destruct th0 as [pc0 ops0 am0 is0 ls0 cu0 ts0].
    unfold todo in Hsum. simpl in *.
    destruct pc0 as [| | | | | | | | | | | | | | | | | | | raised | |];
      unfold thread_step; simpl in *; split_if; acc_solve.
  - pose proof (holds_current_critical (at_pc th0)) as Hhc.
    pose proof (critical_contending (at_pc th0)) as Hcc.
    destruct th1 as [pc1 ops1 am1 is1 ls1 cu1 ts1].
    unfold todo in Hsum. simpl in *.
    destruct pc1 as [| | | | | | | | | | | | | | | | | | | raised | |];
      unfold thread_step; simpl in *; split_if; acc_solve.
  - unfold accounted. simpl. repeat split; try assumption. eauto 10.
Qed.

Lemma accounted_run total schedule :
  ∀ c, inv c → accounted total c → accounted total (run schedule c).
Proof.
  induction schedule as [|[who now] schedule IH]; intros c Hi Hc; [exact Hc|].
  simpl. apply IH; [apply inv_step, Hi | apply accounted_step; assumption].
Qed.

(** Under every interleaving of the accesses of the two threads: when both
    threads are done and no acquisition has timed out, the counter holds the
    sum of all the amounts. *)
Lemma interleaved_increments_sum (operations0 operations1 : list Z)
    (schedule : list (Z * Q)) :
  let c := run schedule (initial operations0 operations1) in
  let st := PetersonLock.stats (SharedResource.lock (shared c)) in
  at_pc (thread0 c) = Done → at_pc (thread1 c) = Done →
  fails_in st 0 = 0 → fails_in st 1 = 0 →
  SharedResource.value (shared c) =
    sum_list operations0 + sum_list operations1.
Proof.
  intros c st Hd0 Hd1 Hf0 Hf1.
  destruct (accounted_run _ schedule _
              (inv_initial operations0 operations1)
              (accounted_initial operations0 operations1))
    as (_ & _ & Ho0 & Ho1 & s0 & s1 & Hs0 & Hs1 & _ & _ & Hsum).
  fold c in Ho0, Ho1, Hs0, Hs1, Hsum. fold st in Hs0, Hs1.
  unfold fails_in in Hf0, Hf1. rewrite Hs0 in Hf0. rewrite Hs1 in Hf1.
  simpl in Hf0, Hf1. unfold todo in Hsum.
  rewrite (Ho0 Hd0), (Ho1 Hd1), Hd0, Hd1 in Hsum. simpl in Hsum. lia.
Qed.

End MutualExclusion.

(** ** The protocol of [lock] *)

Section LockProtocol.
Import Threads.

Ltac split_if :=
  repeat match goal with
         | |- context [match ?l with [] => _ | _ :: _ => _ end] =>
             destruct l eqn:?
         | |- context [if ?b then _ else _] => destruct b eqn:?
         end.

(** The transition of a thread as the configuration sees it. *)
Lemma step_own who now c :
  valid who →
  thread_of (step who now c) who =
    (thread_step who now (thread_of c who) (shared c)).1 ∧
  shared (step who now c) =
    (thread_step who now (thread_of c who) (shared c)).2.
Proof.
  intros [-> | ->]; unfold step, thread_of; simpl;
    destruct (thread_step _ _ _ _); done.
Qed.

(** A transition of the other thread leaves a thread, its flag and its
    statistics alone. *)
Lemma step_other who now c :
  valid who →
  thread_of (step (1 - who) now c) who = thread_of c who ∧
  PetersonLock.stats (lock_of (step (1 - who) now c)) !! who =
    PetersonLock.stats (lock_of c) !! who ∧
  flag_of (lock_of (step (1 - who) now c)) who = flag_of (lock_of c) who ∧
  PetersonLock._lock_timeout (lock_of (step (1 - who) now c)) =
    PetersonLock._lock_timeout (lock_of c).
Proof.
  destruct c as [[v [fl tn st tmo] lg] th0 th1].
  intros [-> | ->]; norm_pid; unfold step, thread_of, lock_of, flag_of; simpl.
  - destruct th1 as [pc1 ops1 am1 is1 ls1 cu1 ts1].
    destruct pc1 as [| | | | | | | | | | | | | | | | | | | raised | |];
      unfold thread_step; simpl; split_if; simpl;
      rewrite ?lookup_alter_ne by done;
      rewrite ?list_lookup_insert_ne by done; done.
  - destruct th0 as [pc0 ops0 am0 is0 ls0 cu0 ts0].
    destruct pc0 as [| | | | | | | | | | | | | | | | | | | raised | |];
      unfold thread_step; simpl; split_if; simpl;
      rewrite ?lookup_alter_ne by done;
      rewrite ?list_lookup_insert_ne by done; done.
Qed.

Lemma other_runs_frame who readings :
  ∀ c,
  valid who →
  thread_of (other_runs who readings c) who = thread_of c who ∧
  PetersonLock.stats (lock_of (other_runs who readings c)) !! who =
    PetersonLock.stats (lock_of c) !! who ∧
  flag_of (lock_of (other_runs who readings c)) who = flag_of (lock_of c) who ∧
  PetersonLock._lock_timeout (lock_of (other_runs who readings c)) =
    PetersonLock._lock_timeout (lock_of c).
Proof.
  induction readings as [|now readings IH]; intros c Hv; [done|].
  change (other_runs who (now :: readings) c)
    with (other_runs who readings (step (1 - who) now c)).
  destruct (IH (step (1 - who) now c) Hv) as (Ht & Hs & Hf & Hl).
  destruct (step_other who now c Hv) as (Ht' & Hs' & Hf' & Hl').
  rewrite Ht, Hs, Hf, Hl. done.
Qed.

(** A transition of a thread and then what the other thread does, as the
    thread sees it. *)
Lemma own_then_others who now readings c :
  valid who →
  let r := thread_step who now (thread_of c who) (shared c) in
  let c' := other_runs who readings (step who now c) in
  thread_of c' who = r.1 ∧
  PetersonLock.stats (lock_of c') !! who =
    PetersonLock.stats (SharedResource.lock r.2) !! who ∧
  flag_of (lock_of c') who = flag_of (SharedResource.lock r.2) who ∧
  PetersonLock._lock_timeout (lock_of c') =
    PetersonLock._lock_timeout (SharedResource.lock r.2).
Proof.
  intros Hv r c'. subst r c'.
  destruct (step_own who now c Hv) as [T S].
  destruct (other_runs_frame who readings (step who now c) Hv)
    as (FT & FS & FF & FL).
  rewrite FT, FS, FF, FL. unfold lock_of. rewrite T, S. done.
Qed.

(** The loop is left at once when [turn] is not the other identity, after
    both cells of the condition have been read. *)
Lemma wait_loop_turn polls pid start a b tn st tmo clk tr :
  valid pid →
  [a; b] !! Z.to_nat (1 - pid) = Some true →
  tn ≠ 1 - pid →
  PetersonLock.wait_loop polls pid (1 - pid) start
      (mkWorld (PetersonLock.mk [a; b] tn st tmo) clk tr) =
    Some (Return tt,
          mkWorld (PetersonLock.mk [a; b] tn st tmo) clk
                  (tr ++ [EvGetFlag (1 - pid) true; EvGetTurn tn])).
Proof.
  intros [-> | ->] H Htn; norm_pid; simplify_eq/=.
  - destruct polls; run; (destruct (Z.eqb_spec tn 1); [done|]);
      rewrite <- app_assoc; reflexivity.
  - destruct polls; run; (destruct (Z.eqb_spec tn 0); [done|]);
      rewrite <- app_assoc; reflexivity.
Qed.

(** A poll that finds the condition true within the timeout sleeps and
    polls again. *)
Lemma wait_loop_again polls pid start a b st tmo now clk tr :
  valid pid →
  [a; b] !! Z.to_nat (1 - pid) = Some true →
  (now - start <= tmo)%Q →
  PetersonLock.wait_loop (Datatypes.S polls) pid (1 - pid) start
      (mkWorld (PetersonLock.mk [a; b] (1 - pid) st tmo) (now :: clk) tr) =
  PetersonLock.wait_loop polls pid (1 - pid) start
      (mkWorld (PetersonLock.mk [a; b] (1 - pid) st tmo) clk
               (tr ++ [EvGetFlag (1 - pid) true; EvGetTurn (1 - pid);
                       EvSleep (1 # 100)])).
Proof.
  intros [-> | ->] H Hle; norm_pid; simplify_eq/=.
  - cbn [PetersonLock.wait_loop]. run. rewrite (Qgt_bool_false _ _ Hle).
    run. rewrite <- !app_assoc. reflexivity.
  - cbn [PetersonLock.wait_loop]. run. rewrite (Qgt_bool_false _ _ Hle).
    run. rewrite <- !app_assoc. reflexivity.
Qed.

Ltac stage Hv n es c T S F L :=
  destruct (own_then_others _ n es c Hv) as (T & S & F & L);
  unfold thread_step in T, S, F, L.

(** Lines 40-41 under interference. *)
Lemma flag_then_turn who c n1 n2 es :
  valid who → wf (lock_of c) →
  at_pc (thread_of c who) = L40 →
  let c1 := step who n1 c in
  let c2 := step who n2 (other_runs who es c1) in
  at_pc (thread_of c1 who) = L41 ∧
  flag_of (lock_of c1) who = Some true ∧
  flag_of (lock_of c1) (1 - who) = flag_of (lock_of c) (1 - who) ∧
  PetersonLock.turn (lock_of c1) = PetersonLock.turn (lock_of c) ∧
  at_pc (thread_of c2 who) = L44_flag ∧
  flag_of (lock_of c2) who = Some true ∧
  PetersonLock.turn (lock_of c2) = 1 - who.
Proof.
  intros Hv Hwf Hpc. cbv zeta.
  destruct (wf_cells _ Hwf) as (a & b & Hab).
  destruct (step_own who n1 c Hv) as [T1 S1].
  unfold thread_step in T1, S1. rewrite Hpc in T1, S1. simpl in T1, S1.
  assert (flag_of (lock_of (step who n1 c)) who = Some true) as Hup.
  { unfold flag_of, lock_of. rewrite S1. simpl. unfold lock_of in Hab.
    rewrite Hab. destruct Hv as [-> | ->]; reflexivity. }
  split; [rewrite T1; reflexivity|]. split; [exact Hup|].
  split.
  { unfold flag_of, lock_of. rewrite S1. simpl.
    destruct Hv as [-> | ->]; norm_pid;
      apply list_lookup_insert_ne; done. }
  split; [unfold lock_of; rewrite S1; reflexivity|].
  destruct (other_runs_frame who es (step who n1 c) Hv)
    as (FT & _ & FF & _).
  rewrite T1 in FT. rewrite Hup in FF.
  set (c1 := other_runs who es (step who n1 c)) in *. clearbody c1.
  destruct (step_own who n2 c1 Hv) as [T2 S2].
  unfold thread_step in T2, S2. rewrite FT in T2, S2. simpl in T2, S2.
  split; [rewrite T2; reflexivity|].
  unfold flag_of, lock_of in *. rewrite S2. simpl. done.
Qed.

(** Lines 44-49 under interference: a poll that finds the lock held. *)
Lemma held_poll_waits who c n1 n2 n3 n4 e1 e2 e3 :
  valid who →
  at_pc (thread_of c who) = L44_flag →
  let th := thread_of c who in
  let c1 := other_runs who e1 (step who n1 c) in
  let c2 := other_runs who e2 (step who n2 c1) in
  let c3 := other_runs who e3 (step who n3 c2) in
  let c4 := step who n4 c3 in
  flag_of (lock_of c) (1 - who) = Some true →
  PetersonLock.turn (lock_of c1) = 1 - who →
  (n3 - lock_start th <= PetersonLock._lock_timeout (lock_of c2))%Q →
  at_pc (thread_of c1 who) = L44_turn ∧
  at_pc (thread_of c2 who) = L45 ∧
  at_pc (thread_of c3 who) = L49 ∧
  at_pc (thread_of c4 who) = L44_flag ∧
  lock_start (thread_of c4 who) = lock_start th ∧
  PetersonLock.stats (lock_of c4) !! who =
    PetersonLock.stats (lock_of c) !! who ∧
  flag_of (lock_of c4) who = flag_of (lock_of c) who.
Proof.
  intros Hv Hpc. cbv zeta. intros Hf Hturn Hle.
  stage Hv n1 e1 c T1 S1 F1 L1.
  rewrite Hpc in T1, S1, F1, L1.
  unfold flag_of, lock_of in Hf. rewrite Hf in T1, S1, F1, L1.
  simpl in T1, S1, F1, L1.
  set (c1 := other_runs who e1 (step who n1 c)) in *. clearbody c1.
  stage Hv n2 e2 c1 T2 S2 F2 L2.
  rewrite T1 in T2, S2, F2, L2. unfold lock_of in Hturn.
  cbn [at_pc goto] in T2, S2, F2, L2.
  rewrite Hturn, Z.eqb_refl in T2, S2, F2, L2.
  simpl in T2, S2, F2, L2.
  set (c2 := other_runs who e2 (step who n2 c1)) in *. clearbody c2.
  stage Hv n3 e3 c2 T3 S3 F3 L3.
  rewrite T2 in T3, S3, F3, L3. unfold lock_of in Hle.
  cbn [at_pc goto lock_start] in T3, S3, F3, L3.
  rewrite (Qgt_bool_false _ _ Hle) in T3, S3, F3, L3.
  simpl in T3, S3, F3, L3.
  set (c3 := other_runs who e3 (step who n3 c2)) in *. clearbody c3.
  destruct (step_own who n4 c3 Hv) as [T4 S4].
  unfold thread_step in T4, S4. rewrite T3 in T4, S4. simpl in T4, S4.
  rewrite T1, T2, T3, T4. unfold lock_of in *. rewrite S4.
  repeat split; try reflexivity; congruence.
Qed.

(** Lines 44-53 under interference: the poll that finds the other flag
    down. *)
Lemma clear_flag_enters who c ps n1 n2 n3 e1 e2 :
  valid who →
  at_pc (thread_of c who) = L44_flag →
  PetersonLock.stats (lock_of c) !! who = Some ps →
  let th := thread_of c who in
  let c1 := other_runs who e1 (step who n1 c) in
  let c2 := other_runs who e2 (step who n2 c1) in
  let c3 := step who n3 c2 in
  flag_of (lock_of c) (1 - who) = Some false →
  at_pc (thread_of c1 who) = L51 ∧
  at_pc (thread_of c2 who) = L52 ∧
  at_pc (thread_of c3 who) = L93 ∧
  PetersonLock.stats (lock_of c3) !! who =
    Some (mkProcessStats (entries ps + 1)
                         (wait_time ps + (n3 - lock_start th)) (fails ps)) ∧
  flag_of (lock_of c3) who = flag_of (lock_of c) who.
Proof.
  intros Hv Hpc Hst. cbv zeta. intros Hf.
  stage Hv n1 e1 c T1 S1 F1 L1.
  rewrite Hpc in T1, S1, F1, L1.
  unfold flag_of, lock_of in Hf. rewrite Hf in T1, S1, F1, L1.
  simpl in T1, S1, F1, L1.
  set (c1 := other_runs who e1 (step who n1 c)) in *. clearbody c1.
  stage Hv n2 e2 c1 T2 S2 F2 L2.
  rewrite T1 in T2, S2, F2, L2.
  cbn [at_pc goto] in T2, S2, F2, L2. simpl in T2, S2, F2, L2.
  unfold lock_of in Hst, S1. rewrite lookup_alter_eq, S1, Hst in S2.
  set (c2 := other_runs who e2 (step who n2 c1)) in *. clearbody c2.
  destruct (step_own who n3 c2 Hv) as [T3 S3].
  unfold thread_step in T3, S3. rewrite T2 in T3, S3. simpl in T3, S3.
  rewrite T1, T2, T3. unfold lock_of in *. rewrite S3. simpl.
  rewrite lookup_alter_eq, S2. unfold flag_of in *.
  cbv [PetersonLock.with_stats] in *. simpl in *.
  repeat split; try reflexivity; congruence.
Qed.

(** Lines 44-53 under interference: the poll that finds the other flag set
    and [turn] given back. *)
Lemma turn_given_enters who c ps n1 n2 n3 n4 e1 e2 e3 :
  valid who →
  at_pc (thread_of c who) = L44_flag →
  PetersonLock.stats (lock_of c) !! who = Some ps →
  let th := thread_of c who in
  let c1 := other_runs who e1 (step who n1 c) in
  let c2 := other_runs who e2 (step who n2 c1) in
  let c3 := other_runs who e3 (step who n3 c2) in
  let c4 := step who n4 c3 in
  flag_of (lock_of c) (1 - who) = Some true →
  PetersonLock.turn (lock_of c1) ≠ 1 - who →
  at_pc (thread_of c1 who) = L44_turn ∧
  at_pc (thread_of c2 who) = L51 ∧
  at_pc (thread_of c3 who) = L52 ∧
  at_pc (thread_of c4 who) = L93 ∧
  PetersonLock.stats (lock_of c4) !! who =
    Some (mkProcessStats (entries ps + 1)
                         (wait_time ps + (n4 - lock_start th)) (fails ps)) ∧
  flag_of (lock_of c4) who = flag_of (lock_of c) who.
Proof.
  intros Hv Hpc Hst. cbv zeta. intros Hf Hturn.
  stage Hv n1 e1 c T1 S1 F1 L1.
  rewrite Hpc in T1, S1, F1, L1.
  unfold flag_of, lock_of in Hf. rewrite Hf in T1, S1, F1, L1.
  simpl in T1, S1, F1, L1.
  set (c1 := other_runs who e1 (step who n1 c)) in *. clearbody c1.
  stage Hv n2 e2 c1 T2 S2 F2 L2.
  rewrite T1 in T2, S2, F2, L2. unfold lock_of in Hturn.
  cbn [at_pc goto] in T2, S2, F2, L2.
  apply Z.eqb_neq in Hturn. rewrite Hturn in T2, S2, F2, L2.
  simpl in T2, S2, F2, L2.
  set (c2 := other_runs who e2 (step who n2 c1)) in *. clearbody c2.
  stage Hv n3 e3 c2 T3 S3 F3 L3.
  rewrite T2 in T3, S3, F3, L3.
  cbn [at_pc goto] in T3, S3, F3, L3. simpl in T3, S3, F3, L3.
  unfold lock_of in Hst, S1, S2. rewrite lookup_alter_eq, S2, S1, Hst in S3.
  set (c3 := other_runs who e3 (step who n3 c2)) in *. clearbody c3.
  destruct (step_own who n4 c3 Hv) as [T4 S4].
  unfold thread_step in T4, S4. rewrite T3 in T4, S4. simpl in T4, S4.
  rewrite T1, T2, T3, T4. unfold lock_of in *. rewrite S4. simpl.
  rewrite lookup_alter_eq, S3. unfold flag_of in *.
  cbv [PetersonLock.with_stats] in *. simpl in *.
  repeat split; try reflexivity; congruence.
Qed.

(** C5. [lock] follows Peterson's protocol in order, on its own and with the
    other thread running.

    The call on its own: with the other flag down, [lock] writes its own
    flag, then [turn], reads the other flag once and returns [True];
    [turn] is the other identity, [entries] is one more and [wait_time] has
    grown by the time between the two readings of the clock.

    The loop of lines 44-49, from any state of the lock: it is left at once
    when the other flag is down, having read that flag only; it is left at
    once when the other flag is set and [turn] is not the other identity,
    having read both; and when both hold and the clock is within the
    timeout, the poll sleeps 10 ms and the loop polls again.

    The thread, whatever transitions the other thread takes in between:
    - from line 40 it raises its own flag and nothing else, and with its
      next transition writes [turn]; its flag is still set then, and it is
      at the head of the loop;
    - a poll that reads the other flag set, then [turn] equal to the other
      identity, then a clock within the timeout, sleeps and comes back to
      the head of the loop, its own flag and statistics as they were;
    - a poll that reads the other flag down, or the other flag set and then
      a [turn] that is not the other identity, leaves the loop; the next
      two transitions of the thread add one to its [entries] and the time
      since line 37 to its [wait_time], [fails] is as before, its flag is
      as before, and [lock] has returned: the thread is at line 93. *)
Theorem lock_follows_protocol (process_id : Z) :
  valid process_id →
  let other := 1 - process_id in
  (∀ s ps t0 t1 rest tr,
     wf s →
     PetersonLock.stats s !! process_id = Some ps →
     flag_of s other = Some false →
     PetersonLock.lock process_id (mkWorld s (t0 :: t1 :: rest) tr) =
       Some (Return true,
             mkWorld (acquired process_id ps (t1 - t0) s) rest
                     (tr ++ [EvSetFlag process_id true; EvSetTurn other;
                             EvGetFlag other false]))) ∧
  (∀ polls s start clk tr,
     wf s →
     (flag_of s other = Some false →
      PetersonLock.wait_loop polls process_id other start
          (mkWorld s clk tr) =
        Some (Return tt, mkWorld s clk (tr ++ [EvGetFlag other false]))) ∧
     (flag_of s other = Some true → PetersonLock.turn s ≠ other →
      PetersonLock.wait_loop polls process_id other start
          (mkWorld s clk tr) =
        Some (Return tt,
              mkWorld s clk
                      (tr ++ [EvGetFlag other true;
                              EvGetTurn (PetersonLock.turn s)]))) ∧
     (flag_of s other = Some true → PetersonLock.turn s = other →
      ∀ now,
        (now - start <= PetersonLock._lock_timeout s)%Q →
        PetersonLock.wait_loop (Datatypes.S polls) process_id other start
            (mkWorld s (now :: clk) tr) =
        PetersonLock.wait_loop polls process_id other start
            (mkWorld s clk
                     (tr ++ [EvGetFlag other true; EvGetTurn other;
                             EvSleep (1 # 100)])))) ∧
  (∀ c n1 n2 es,
     wf (lock_of c) →
     at_pc (thread_of c process_id) = L40 →
     let c1 := step process_id n1 c in
     let c2 := step process_id n2 (other_runs process_id es c1) in
     at_pc (thread_of c1 process_id) = L41 ∧
     flag_of (lock_of c1) process_id = Some true ∧
     flag_of (lock_of c1) other = flag_of (lock_of c) other ∧
     PetersonLock.turn (lock_of c1) = PetersonLock.turn (lock_of c) ∧
     at_pc (thread_of c2 process_id) = L44_flag ∧
     flag_of (lock_of c2) process_id = Some true ∧
     PetersonLock.turn (lock_of c2) = other) ∧
  (∀ c n1 n2 n3 n4 e1 e2 e3,
     at_pc (thread_of c process_id) = L44_flag →
     let th := thread_of c process_id in
     let c1 := other_runs process_id e1 (step process_id n1 c) in
     let c2 := other_runs process_id e2 (step process_id n2 c1) in
     let c3 := other_runs process_id e3 (step process_id n3 c2) in
     let c4 := step process_id n4 c3 in
     flag_of (lock_of c) other = Some true →
     PetersonLock.turn (lock_of c1) = other →
     (n3 - lock_start th <= PetersonLock._lock_timeout (lock_of c2))%Q →
     at_pc (thread_of c1 process_id) = L44_turn ∧
     at_pc (thread_of c2 process_id) = L45 ∧
     at_pc (thread_of c3 process_id) = L49 ∧
     at_pc (thread_of c4 process_id) = L44_flag ∧
     lock_start (thread_of c4 process_id) = lock_start th ∧
     PetersonLock.stats (lock_of c4) !! process_id =
       PetersonLock.stats (lock_of c) !! process_id ∧
     flag_of (lock_of c4) process_id = flag_of (lock_of c) process_id) ∧
  (∀ c ps n1 n2 n3 e1 e2,
     at_pc (thread_of c process_id) = L44_flag →
     PetersonLock.stats (lock_of c) !! process_id = Some ps →
     let th := thread_of c process_id in
     let c1 := other_runs process_id e1 (step process_id n1 c) in
     let c2 := other_runs process_id e2 (step process_id n2 c1) in
     let c3 := step process_id n3 c2 in
     flag_of (lock_of c) other = Some false →
     at_pc (thread_of c1 process_id) = L51 ∧
     at_pc (thread_of c2 process_id) = L52 ∧
     at_pc (thread_of c3 process_id) = L93 ∧
     PetersonLock.stats (lock_of c3) !! process_id =
       Some (mkProcessStats (entries ps + 1)
                            (wait_time ps + (n3 - lock_start th))
                            (fails ps)) ∧
     flag_of (lock_of c3) process_id = flag_of (lock_of c) process_id) ∧
  (∀ c ps n1 n2 n3 n4 e1 e2 e3,
     at_pc (thread_of c process_id) = L44_flag →
     PetersonLock.stats (lock_of c) !! process_id = Some ps →
     let th := thread_of c process_id in
     let c1 := other_runs process_id e1 (step process_id n1 c) in
     let c2 := other_runs process_id e2 (step process_id n2 c1) in
     let c3 := other_runs process_id e3 (step process_id n3 c2) in
     let c4 := step process_id n4 c3 in
     flag_of (lock_of c) other = Some true →
     PetersonLock.turn (lock_of c1) ≠ other →
     at_pc (thread_of c1 process_id) = L44_turn ∧
     at_pc (thread_of c2 process_id) = L51 ∧
     at_pc (thread_of c3 process_id) = L52 ∧
     at_pc (thread_of c4 process_id) = L93 ∧
     PetersonLock.stats (lock_of c4) !! process_id =
       Some (mkProcessStats (entries ps + 1)
                            (wait_time ps + (n4 - lock_start th))
                            (fails ps)) ∧
     flag_of (lock_of c4) process_id = flag_of (lock_of c) process_id).
Proof.
  intros Hv other. subst other.
  split; [|split; [|split; [|split; [|split]]]].
  - intros s ps t0 t1 rest tr Hwf Hst Hf. apply lock_enters; assumption.
  - intros polls s start clk tr Hwf.
    destruct (wf_cells s Hwf) as (a & b & Hab).
    destruct s as [fl tn st tmo]. unfold flag_of. simpl in *. subst fl.
    split; [|split].
    + intros Hf. apply wait_loop_free; assumption.
    + intros Hf Htn. apply wait_loop_turn; assumption.
    + intros Hf -> now Hle. apply wait_loop_again; assumption.
  - intros c n1 n2 es Hwf Hpc. apply flag_then_turn; assumption.
  - intros c n1 n2 n3 n4 e1 e2 e3 Hpc. apply held_poll_waits; assumption.
  - intros c ps n1 n2 n3 e1 e2 Hpc Hst.
    apply clear_flag_enters; assumption.
  - intros c ps n1 n2 n3 n4 e1 e2 e3 Hpc Hst.
    apply turn_given_enters; assumption.
Qed.

Lemma lock_follows_protocol_witness :
  valid 1 ∧
  (let s := PetersonLock.with_turn 1
              (PetersonLock.with_flag [true; true] PetersonLock.init) in
   PetersonLock.wait_loop 3 1 0 0 (mkWorld s [] []) =
     Some (Return tt, mkWorld s [] [EvGetFlag 0 true; EvGetTurn 1])) ∧
  (let c := run (replicate 9 (0, 0%Q) ++ replicate 5 (1, 1%Q))
                (initial [1] [1]) in
   let c4 := step 1 2
               (other_runs 1 (replicate 5 3%Q)
                  (step 1 2 (other_runs 1 []
                     (step 1 2 (other_runs 1 [] (step 1 2 c)))))) in
   let c7 := step 1 4 (other_runs 1 []
               (step 1 4 (other_runs 1 [] (step 1 4 c4)))) in
   at_pc (thread_of c 1) = L44_flag ∧
   in_critical_section (at_pc (thread_of c 0)) = true ∧
   at_pc (thread_of c4 1) = L44_flag ∧
   at_pc (thread_of c7 1) = L93 ∧
   PetersonLock.stats (lock_of c7) !! 1 = Some (mkProcessStats 1 3 0)) ∧
  (let c := run (replicate 4 (0, 0%Q) ++ replicate 5 (1, 1%Q))
                (initial [1] [1]) in
   let c4 := step 1 3
               (other_runs 1 []
                  (step 1 3 (other_runs 1 []
                     (step 1 3 (other_runs 1 [2%Q] (step 1 3 c)))))) in
   at_pc (thread_of c 1) = L44_flag ∧
   flag_of (lock_of c) 0 = Some true ∧
   at_pc (thread_of c4 1) = L93 ∧
   PetersonLock.stats (lock_of c4) !! 1 = Some (mkProcessStats 1 2 0)).
Proof.
  destruct (lock_follows_protocol 1 valid_1) as (_ & B & _ & D & E & F).
  split; [exact valid_1|]. split; [|split].
  - destruct (B 3%nat
                (PetersonLock.with_turn 1
                   (PetersonLock.with_flag [true; true] PetersonLock.init))
                0%Q [] []) as (_ & B2 & _).
    + repeat split; vm_compute; eauto.
    + apply B2; [reflexivity | discriminate].
  - cbv zeta.
    set (c := run (replicate 9 (0, 0%Q) ++ replicate 5 (1, 1%Q))
                  (initial [1] [1])).
    destruct (D c 2%Q 2%Q 2%Q 2%Q [] [] (replicate 5 3%Q))
      as (_ & _ & _ & D4 & D5 & D6 & _);
      [vm_compute; reflexivity .. | vm_compute; discriminate |].
    set (c4 := step 1 2 _) in *.
    destruct (E c4 (mkProcessStats 0 0 0) 4%Q 4%Q 4%Q [] [])
      as (_ & _ & E3 & E4 & _);
      [exact D4 | vm_compute; reflexivity | vm_compute; reflexivity |].
    split; [vm_compute; reflexivity|]. split; [vm_compute; reflexivity|].
    split; [exact D4|]. split; [exact E3|].
    rewrite E4. vm_compute. reflexivity.
  - cbv zeta.
    set (c := run (replicate 4 (0, 0%Q) ++ replicate 5 (1, 1%Q))
                  (initial [1] [1])).
    destruct (F c (mkProcessStats 0 0 0) 3%Q 3%Q 3%Q 3%Q [2%Q] [] [])
      as (_ & _ & _ & F4 & F5 & _);
      [vm_compute; reflexivity .. | vm_compute; discriminate |].
    split; [vm_compute; reflexivity|]. split; [vm_compute; reflexivity|].
    split; [exact F4|].
    rewrite F5. vm_compute. reflexivity.
Defined.

End LockProtocol.

(** * Further properties *)

(** ** Calls in sequence *)

Section CallSequences.
Import SharedResource.
Local Arguments PetersonLock.lock : simpl never.
Local Arguments PetersonLock.unlock : simpl never.

Lemma valid_py_in p : valid p → py_in p [0; 1] = true.
Proof. intros [-> | ->]; reflexivity. Qed.

Lemma invalid_py_in p : ¬ valid p → py_in p [0; 1] = false.
Proof.
  intros H. unfold py_in. simpl.
  destruct (Z.eqb_spec p 0) as [->|]; [destruct H; left; done|].
  destruct (Z.eqb_spec p 1) as [->|]; [destruct H; right; done|].
  reflexivity.
Qed.

(** What one call does to the resource, whatever its outcome. *)
Lemma run_call_sound c r clk tr res w' :
  wf (lock r) →
  run_call c (mkWorld r clk tr) = Some (res, w') →
  lock_step (lock r) (attempt_of c) (lock (obj w')) ∧
  ((value (obj w') = value r ∧ access_log (obj w') = access_log r) ∨
   (∃ p n t d,
      c = CallIncrement p (PyInt n) ∧ valid p ∧ res = Return tt ∧
      value (obj w') = value r + n ∧
      access_log (obj w') =
        access_log r ++ [mkLogEntry p "increment" (PyInt n) t d])).
Proof.
  intros Hwf Hrun.
  destruct c as [pid amount | pid | pid |]; simpl in Hrun;
    try (unfold attempt_of;
         destruct (valid_dec pid) as [Hv | Hv];
         [rewrite (valid_py_in pid Hv) | rewrite (invalid_py_in pid Hv)]).
  - destruct (increment_sound _ _ _ _ _ _ _ Hwf Hrun)
      as (t0 & clk' & -> & [(Hn & _ & ->)|(Hpid & ps & Hst & Hcase)]);
      [done|].
    destruct Hcase
      as [(_ & _ & Hobj & _)
         |(_ & u1 & u2 & rest' & -> & [(_ & _ & ->)
                                      |(n & t3 & t4 & ? & -> & _ & -> & ->)])].
    + rewrite Hobj. simpl. split; [|left; done].
      apply step_timed_out_released; done.
    + simpl. split; [|left; done]. apply step_acquired_released; done.
    + simpl. split; [apply step_acquired_released; done|].
      right. exists pid, n, t3, (t4 - t0)%Q. done.
  - destruct (increment_sound _ _ _ _ _ _ _ Hwf Hrun)
      as (t0 & clk' & -> & [(Hn & _ & ->)|(Hpid & _)]); [|done].
    simpl. split; [constructor | left; done].
  - revert Hrun. run_res.
    destruct (PetersonLock.lock pid _) as [[rl wl]|] eqn:Hl; [|done].
    destruct (wf_stats pid _ Hv Hwf) as [ps Hst].
    destruct (lock_sound _ _ _ _ _ _ _ Hv Hwf Hst Hl)
      as [(? & ? & ? & _ & _ & -> & ->)|(_ & -> & Hobj & _)].
    + run_res. intros [= <- <-]. simpl. destruct r.
      split; [|left; done]. apply step_acquired; done.
    + run_res. intros [= <- <-]. simpl. rewrite Hobj. destruct r.
      split; [|left; done]. apply step_timed_out; done.
  - revert Hrun. run_res. rewrite lock_invalid by done.
    run_res. intros [= <- <-]. simpl. destruct r.
    split; [constructor | left; done].
  - destruct (valid_dec pid) as [Hv | Hv]; revert Hrun; run_res.
    + rewrite unlock_releases by done. intros [= <- <-]. simpl. destruct r.
      split; [|left; done]. apply step_released; done.
    + rewrite unlock_invalid by done. intros [= <- <-]. simpl.
      destruct r. split; [constructor | left; done].
  - revert Hrun. unfold PetersonLock.get_stats. run_res.
    intros [= <- <-]. simpl. destruct r. split; [constructor | left; done].
Qed.

Lemma lock_step_wf l a l' : wf l → lock_step l a l' → wf l'.
Proof.
  intros Hwf [| | | | |];
    auto using wf_acquired, wf_timed_out, wf_released.
Qed.

Lemma run_calls_cons c cs (w : World t) res w' :
  run_calls (c :: cs) w = Some (res, w') →
  ∃ rc wc, run_call c w = Some (rc, wc) ∧ run_calls cs wc = Some (res, w').
Proof.
  simpl. cbv [mbind M_bind bind try_except]. intros Hrun.
  destruct (run_call c w) as [[rc wc]|] eqn:Hc; [|done].
  exists rc, wc. split; [done|]. destruct rc; exact Hrun.
Qed.

Lemma lock_shape_wf l : lock_shape l → wf l.
Proof.
  intros (Hl & _ & Hd & _). split; [done|].
  split; apply elem_of_dom; rewrite Hd.
  - apply elem_of_union_l, elem_of_singleton. reflexivity.
  - apply elem_of_union_r, elem_of_singleton. reflexivity.
Qed.

Lemma lock_shape_init : lock_shape PetersonLock.init.
Proof.
  split; [reflexivity|]. split; [left; reflexivity|].
  split; [|reflexivity]. unfold PetersonLock.init. simpl.
  rewrite dom_insert_L, dom_singleton_L. reflexivity.
Qed.

Lemma lock_step_shape l a l' : lock_shape l → lock_step l a l' → lock_shape l'.
Proof.
  intros (Hl & Ht & Hd & Hq) Hstep.
  assert (∀ p ps, PetersonLock.stats l !! p = Some ps →
                  ∀ x, dom (<[p := x]> (PetersonLock.stats l))
                       = ({[0; 1]} : gset Z)) as Hdom.
  { intros p ps Hp x. rewrite dom_insert_L, <- Hd.
    apply subseteq_union_1_L, singleton_subseteq_l, elem_of_dom. eauto. }
  destruct Hstep as [|p ps e Hp Hs|p ps e Hp Hs|p ps Hp Hs|p ps Hp Hs|p Hp];
    unfold lock_shape, acquired, timed_out, released; simpl;
    rewrite ?length_insert; repeat split; try done;
    try (eapply Hdom; eassumption);
    destruct Hp as [-> | ->]; auto.
Qed.

(** X1. The methods keep the shape [__init__] gives the lock, whatever the
    calls, their arguments and their outcomes: two flags, [turn] 0 or 1,
    statistics for identities 0 and 1 and for no other, the timeout 5. A
    caller that catches the exceptions, as [run_test_case] does, sees the
    sequence end normally. *)
Theorem calls_keep_lock_shape (cs : list call) (r : t) (clk : list Q)
    (tr : list event) (res : result unit) (w' : World t) :
  lock_shape (lock r) →
  run_calls cs (mkWorld r clk tr) = Some (res, w') →
  res = Return tt ∧ lock_shape (lock (obj w')).
Proof.
  revert r clk tr. induction cs as [|c cs IH]; intros r clk tr Hs Hrun.
  - injection Hrun as <- <-. done.
  - apply run_calls_cons in Hrun as (rc & [rw cw tw] & Hc & Hrest).
    destruct (run_call_sound _ _ _ _ _ _ (lock_shape_wf _ Hs) Hc)
      as [Hstep _].
    eapply (IH rw cw tw); [|exact Hrest].
    eapply lock_step_shape; eassumption.
Qed.

Lemma calls_keep_lock_shape_witness :
  ∃ res w',
    run_calls [CallIncrement 0 (PyInt 1); CallLock 1; CallLock 0;
               CallIncrement 7 PyNone; CallUnlock (-1); CallUnlock 1]
        (mkWorld init [0; 0; 0; 0; 0; 0; 0; 0; 1; 6; 6]%Q []) =
      Some (res, w') ∧
    res = Return tt ∧ lock_shape (lock (obj w')).
Proof.
  eassert (run_calls [CallIncrement 0 (PyInt 1); CallLock 1; CallLock 0;
                      CallIncrement 7 PyNone; CallUnlock (-1); CallUnlock 1]
             (mkWorld init [0; 0; 0; 0; 0; 0; 0; 0; 1; 6; 6]%Q []) =
           Some (_, _)) as Hrun by (vm_compute; reflexivity).
  do 2 eexists. split; [exact Hrun|].
  exact (calls_keep_lock_shape _ init _ _ _ _ lock_shape_init Hrun).
Defined.

Lemma logged_app lg lg' : logged (lg ++ lg') = logged lg + logged lg'.
Proof. induction lg as [|e lg IH]; simpl; [done|]. rewrite IH. lia. Qed.

(** X2. The access log is append-only and the counter moves with it: over
    any sequence of calls the old log is kept as a prefix, the counter has
    grown by exactly the sum of the amounts of the appended entries, there
    is at most one new entry per [increment] call, and every new entry
    carries identity 0 or 1 and the operation name "increment". *)
Theorem counter_matches_log (cs : list call) (r : t) (clk : list Q)
    (tr : list event) (res : result unit) (w' : World t) :
  wf (lock r) →
  run_calls cs (mkWorld r clk tr) = Some (res, w') →
  ∃ new,
    access_log (obj w') = access_log r ++ new ∧
    value (obj w') = value r + logged new ∧
    (length new ≤ increments_in cs)%nat ∧
    Forall (λ e, valid (log_process_id e) ∧
                 log_operation e = "increment"%string) new.
Proof.
  revert r clk tr. induction cs as [|c cs IH]; intros r clk tr Hwf Hrun.
  - injection Hrun as <- <-. exists []. simpl.
    rewrite app_nil_r. split; [done|]. split; [lia|].
    split; [lia | constructor].
  - apply run_calls_cons in Hrun as (rc & [rw cw tw] & Hc & Hrest).
    destruct (run_call_sound _ _ _ _ _ _ Hwf Hc) as [Hstep Hres].
    simpl in Hstep, Hres.
    destruct (IH rw cw tw (lock_step_wf _ _ _ Hwf Hstep) Hrest)
      as (new & Hlog & Hval & Hlen & Hall).
    destruct Hres as [(Hv & Hl)|(p & n & t3 & d & -> & Hp & _ & Hv & Hl)].
    + exists new. rewrite Hlog, Hval, Hv, Hl.
      split; [done|]. split; [done|]. split; [|done].
      destruct c; simpl; lia.
    + exists (mkLogEntry p "increment" (PyInt n) t3 d :: new).
      rewrite Hlog, Hval, Hv, Hl, <- app_assoc. simpl.
      split; [done|]. split; [lia|]. split; [lia|].
      constructor; done.
Qed.

Lemma counter_matches_log_witness :
  ∃ res w' new,
    run_calls [CallIncrement 0 (PyInt 2); CallIncrement 5 (PyInt 9);
               CallIncrement 1 PyNone; CallIncrement 1 (PyInt 3)]
        (mkWorld init (replicate 14 0%Q) []) = Some (res, w') ∧
    access_log (obj w') = access_log init ++ new ∧
    value (obj w') = value init + logged new ∧
    value (obj w') = 5 ∧ length new = 2%nat.
Proof.
  eassert (run_calls [CallIncrement 0 (PyInt 2); CallIncrement 5 (PyInt 9);
                      CallIncrement 1 PyNone; CallIncrement 1 (PyInt 3)]
             (mkWorld init (replicate 14 0%Q) []) =
           Some (_, _)) as Hrun by (vm_compute; reflexivity).
  destruct (counter_matches_log _ init _ _ _ _ wf_init Hrun)
    as (new & Hlog & Hval & _).
  do 2 eexists. exists new. split; [exact Hrun|].
  split; [exact Hlog|]. split; [exact Hval|].
  split; [reflexivity|].
  simpl in Hlog. rewrite <- Hlog. reflexivity.
Defined.

Lemma lock_step_stats l a l' q ps :
  lock_step l a l' →
  PetersonLock.stats l !! q = Some ps →
  ∃ ps',
    PetersonLock.stats l' !! q = Some ps' ∧
    entries ps' + fails ps' =
      entries ps + fails ps + (if decide (a = Some q) then 1 else 0) ∧
    entries ps ≤ entries ps' ∧ fails ps ≤ fails ps'.
Proof.
  intros Hstep Hq.
  destruct Hstep as [|p ps0 e Hp Hs|p ps0 e Hp Hs|p ps0 Hp Hs|p ps0 Hp Hs
                    |p Hp];
    case_decide as Hd; try discriminate Hd;
    unfold acquired, timed_out, released; simpl.
  1,10: exists ps; split; [done | lia].
  1,3,5,7: injection Hd as ->; rewrite lookup_insert_eq;
    rewrite Hq in Hs; injection Hs as <-;
    eexists; split; [reflexivity | simpl; lia].
  all: rewrite lookup_insert_ne by congruence;
    exists ps; split; [done | lia].
Qed.

Lemma attempt_of_is_attempt p c :
  valid p →
  (if decide (attempt_of c = Some p) then 1 else 0) =
    (if is_attempt p c then 1 else 0).
Proof.
  intros Hp. destruct c as [q a | q | q |]; unfold attempt_of, is_attempt;
    try (case_decide; [done | reflexivity]).
  all: destruct (Z.eqb_spec p q) as [<- | Hne];
    [rewrite (valid_py_in p Hp); case_decide; [reflexivity | done]|].
  all: destruct (py_in q [0; 1]); case_decide; congruence.
Qed.

(** X3. Over any sequence of calls, every acquisition attempted by identity
    0 or 1, through [lock] or through [increment], is counted exactly once:
    [entries + fails] of the identity grows by the number of its attempts,
    and neither counter ever decreases. *)
Theorem attempts_counted_once (cs : list call) (r : t) (clk : list Q)
    (tr : list event) (res : result unit) (w' : World t) (p : Z)
    (ps : ProcessStats) :
  wf (lock r) → valid p →
  PetersonLock.stats (lock r) !! p = Some ps →
  run_calls cs (mkWorld r clk tr) = Some (res, w') →
  ∃ ps',
    PetersonLock.stats (lock (obj w')) !! p = Some ps' ∧
    entries ps' + fails ps' = entries ps + fails ps + attempts p cs ∧
    entries ps ≤ entries ps' ∧ fails ps ≤ fails ps'.
Proof.
  intros Hwf Hp. revert r clk tr ps Hwf.
  induction cs as [|c cs IH]; intros r clk tr ps Hwf Hps Hrun.
  - injection Hrun as <- <-. exists ps. simpl. split; [done|]. lia.
  - apply run_calls_cons in Hrun as (rc & [rw cw tw] & Hc & Hrest).
    destruct (run_call_sound _ _ _ _ _ _ Hwf Hc) as [Hstep _].
    simpl in Hstep.
    destruct (lock_step_stats _ _ _ p ps Hstep Hps)
      as (ps1 & Hps1 & Hsum1 & He1 & Hf1).
    rewrite (attempt_of_is_attempt p c Hp) in Hsum1.
    destruct (IH rw cw tw ps1 (lock_step_wf _ _ _ Hwf Hstep) Hps1 Hrest)
      as (ps' & Hps' & Hsum & He & Hf).
    exists ps'. split; [done|]. simpl. lia.
Qed.

Lemma attempts_counted_once_witness :
  ∃ res w' ps',
    run_calls [CallIncrement 0 (PyInt 1); CallLock 1; CallLock 0;
               CallGetStats; CallLock 0]
        (mkWorld init [0; 0; 0; 0; 0; 0; 0; 0; 1; 6; 0; 7]%Q []) =
      Some (res, w') ∧
    PetersonLock.stats (lock (obj w')) !! 0 = Some ps' ∧
    entries ps' + fails ps' = 0 + 0 + 3 ∧ fails ps' = 2.
Proof.
  eassert (run_calls [CallIncrement 0 (PyInt 1); CallLock 1; CallLock 0;
                      CallGetStats; CallLock 0]
             (mkWorld init [0; 0; 0; 0; 0; 0; 0; 0; 1; 6; 0; 7]%Q []) =
           Some (_, _)) as Hrun by (vm_compute; reflexivity).
  destruct (attempts_counted_once _ init _ _ _ _ 0 (mkProcessStats 0 0 0)
              wf_init valid_0 eq_refl Hrun)
    as (ps' & Hps' & Hsum & _).
  do 2 eexists. exists ps'. split; [exact Hrun|].
  split; [exact Hps'|]. split; [exact Hsum|].
  vm_compute in Hps'. injection Hps' as <-. reflexivity.
Defined.

(** X4. A timed-out contender does not block the other: when [lock] of one
    identity has timed out, its flag is down, and the other identity's next
    [lock] finds the loop condition false and returns [True] without
    waiting. *)
Theorem timeout_then_other_enters (process_id : Z) (s : PetersonLock.t)
    (t0 : Q) (early : list Q) (late u0 u1 : Q) (rest : list Q)
    (tr : list event) :
  valid process_id → wf s →
  flag_of s (1 - process_id) = Some true →
  Forall (λ x, (x - t0 <= PetersonLock._lock_timeout s)%Q) early →
  (PetersonLock._lock_timeout s < late - t0)%Q →
  ∃ w1 w2,
    PetersonLock.lock process_id
        (mkWorld s (t0 :: early ++ late :: u0 :: u1 :: rest) tr) =
      Some (Raise (LockAcquisitionFailure (LockTimeout process_id)), w1) ∧
    PetersonLock.lock (1 - process_id) w1 = Some (Return true, w2) ∧
    clock w2 = rest ∧
    flag_of (obj w2) process_id = Some false ∧
    flag_of (obj w2) (1 - process_id) = Some true.
Proof.
  intros Hpid Hwf Hf Hearly Hlate.
  destruct (wf_stats process_id s Hpid Hwf) as [ps Hps].
  assert (valid (1 - process_id)) as Hother
    by (destruct Hpid as [-> | ->]; [right | left]; reflexivity).
  destruct (wf_stats (1 - process_id) (timed_out process_id ps s) Hother
              (wf_timed_out _ _ _ Hpid Hwf)) as [qs Hqs].
  destruct (wf_cells s Hwf) as (a & b & Hab).
  assert (flag_of (timed_out process_id ps s) (1 - (1 - process_id))
          = Some false) as Hdown.
  { unfold flag_of, timed_out. simpl. rewrite Hab.
    destruct Hpid as [-> | ->]; reflexivity. }
  do 2 eexists. split; [|split].
  - apply (lock_times_out process_id s ps); try eassumption.
    + eapply Forall_impl; [exact Hearly|]. intros x Hx.
      apply Qgt_bool_false, Hx.
    + apply Qgt_bool_true, Hlate.
  - apply (lock_enters (1 - process_id) _ qs);
      [exact Hother | apply wf_timed_out; assumption | exact Hdown
      | exact Hqs].
  - simpl. split; [reflexivity|]. unfold flag_of, acquired, timed_out.
    simpl. rewrite Hab. unfold flag_of in Hf. rewrite Hab in Hf.
    destruct Hpid as [-> | ->]; simpl in *; injection Hf as ->; done.
Qed.

Lemma timeout_then_other_enters_witness :
  ∃ w1 w2,
    PetersonLock.lock 0
        (mkWorld held_by_1 (0 :: [1; 5] ++ 6 :: 6 :: 7 :: [])%Q []) =
      Some (Raise (LockAcquisitionFailure (LockTimeout 0)), w1) ∧
    PetersonLock.lock (1 - 0) w1 = Some (Return true, w2) ∧
    clock w2 = [] ∧
    flag_of (obj w2) 0 = Some false ∧
    flag_of (obj w2) (1 - 0) = Some true.
Proof.
  apply (timeout_then_other_enters 0 held_by_1 0%Q [1; 5]%Q 6%Q 6%Q 7%Q
                                   [] []).
  - exact valid_0.
  - exact wf_held_by_1.
  - reflexivity.
  - repeat constructor; vm_compute; intros H; discriminate H.
  - vm_compute. reflexivity.
Defined.

(** ** The driver's loop *)

Lemma increment_invalid p a r t0 clk tr :
  ¬ valid p →
  increment p a (mkWorld r (t0 :: clk) tr) =
    Some (Raise (InvalidProcessId p), mkWorld r clk tr).
Proof.
  intros Hp. destruct r as [v l lg]. unfold increment. run_res.
  rewrite lock_invalid by done. run_res.
  rewrite unlock_invalid by done. run_res. reflexivity.
Qed.

(** X5. [run_test_case] with an identity other than 0 and 1 goes through
    all its operations, whatever they are: each [increment] fails on the
    check of the identity, the failure is caught, and the loop ends normally
    with the resource exactly as it was; the only effect is one reading of
    the clock per operation. *)
Theorem run_test_case_invalid_identity (process_id : Z)
    (operations : list pyval) (delay : Q) (r : t) (clk : list Q)
    (tr : list event) :
  ¬ valid process_id →
  (length operations ≤ length clk)%nat →
  run_test_case process_id operations delay (mkWorld r clk tr) =
    Some (Return tt, mkWorld r (drop (length operations) clk) tr).
Proof.
  intros Hp. revert clk.
  induction operations as [|op ops IH]; intros clk Hlen; [reflexivity|].
  destruct clk as [|t0 clk]; simpl in Hlen; [lia|].
  simpl. cbv [mbind M_bind bind try_except_PetersonError try_except].
  rewrite increment_invalid by done. simpl.
  apply IH. lia.
Qed.

Lemma run_test_case_invalid_identity_witness :
  run_test_case 2 [PyInt 1; PyNone; PyInt 3] (1 # 5)
      (mkWorld init [10; 11; 12; 13]%Q []) =
    Some (Return tt,
          mkWorld init
                  (drop (length [PyInt 1; PyNone; PyInt 3])
                        [10; 11; 12; 13]%Q) []).
Proof.
  apply (run_test_case_invalid_identity 2 [PyInt 1; PyNone; PyInt 3]).
  - exact not_valid_2.
  - simpl. lia.
Defined.







End CallSequences.

(** ** The two threads *)

Section ThreadProperties.
Import Threads.

Ltac branch :=
  repeat match goal with
         | |- context [match ?l with [] => _ | _ :: _ => _ end] =>
             destruct l eqn:?
         | |- context [if ?b then _ else _] => destruct b eqn:?
         end.

Lemma flags_exact_step who now c :
  PetersonLock.flag (SharedResource.lock (shared c)) =
    [flag_raised (at_pc (thread0 c)); flag_raised (at_pc (thread1 c))] →
  PetersonLock.flag (SharedResource.lock (shared (step who now c))) =
    [flag_raised (at_pc (thread0 (step who now c)));
     flag_raised (at_pc (thread1 (step who now c)))].
Proof.
  intros Hfl.
  destruct c as [[v [fl tn st tmo] lg] th0 th1]. simpl in *. subst fl.
  unfold step. destruct (Z.eqb_spec who 0) as [-> | _];
    [|destruct (Z.eqb_spec who 1) as [-> | _]]; [| |reflexivity].
  - destruct th0 as [pc0 ops0 am0 is0 ls0 cu0 ts0]. simpl.
    destruct pc0 as [| | | | | | | | | | | | | | | | | | | raised | |];
      unfold thread_step; simpl; branch; simpl in *; congruence.
  - destruct th1 as [pc1 ops1 am1 is1 ls1 cu1 ts1]. simpl.
    destruct pc1 as [| | | | | | | | | | | | | | | | | | | raised | |];
      unfold thread_step; simpl; branch; simpl in *; congruence.
Qed.

Lemma flags_exact_run schedule :
  ∀ c,
  PetersonLock.flag (SharedResource.lock (shared c)) =
    [flag_raised (at_pc (thread0 c)); flag_raised (at_pc (thread1 c))] →
  PetersonLock.flag (SharedResource.lock (shared (run schedule c))) =
    [flag_raised (at_pc (thread0 (run schedule c)));
     flag_raised (at_pc (thread1 (run schedule c)))].
Proof.
  induction schedule as [|[who now] schedule IH]; intros c Hc; [exact Hc|].
  simpl. apply IH, flags_exact_step, Hc.
Qed.

(** X8. Under every schedule, the flag of a thread is set exactly while the
    thread is between its write at line 40 and the write that lowers it
    again (the release, or line 46 on a timeout). No intention is leaked:
    a thread that is idle or done, or has given up, has its flag down. *)
Theorem flags_follow_program_counters (operations0 operations1 : list Z)
    (schedule : list (Z * Q)) :
  let c := run schedule (initial operations0 operations1) in
  PetersonLock.flag (SharedResource.lock (shared c)) =
    [flag_raised (at_pc (thread0 c)); flag_raised (at_pc (thread1 c))].
Proof. simpl. apply flags_exact_run. reflexivity. Qed.

(** X9. A contender whose peer is not contending is not held back: under
    every schedule, when a thread is at the head of the wait loop and the
    other thread is outside [lock] .. [unlock], the thread's next transition
    leaves the loop for the critical section. *)
Theorem lone_contender_enters (operations0 operations1 : list Z)
    (schedule : list (Z * Q)) (who : Z) (now : Q) :
  let c := run schedule (initial operations0 operations1) in
  valid who →
  at_pc (thread_of c who) = L44_flag →
  flag_raised (at_pc (thread_of c (1 - who))) = false →
  at_pc (thread_of (step who now c) who) = L51.
Proof.
  intros c Hwho Hpc Hother.
  pose proof (flags_exact_run schedule (initial operations0 operations1)
                eq_refl) as Hfl.
  fold c in Hfl. clearbody c.
  destruct c as [[v [fl tn st tmo] lg] th0 th1]. simpl in Hfl. subst fl.
  destruct Hwho as [-> | ->]; unfold thread_of, step in *; simpl in *.
  - destruct th0 as [pc0 ops0 am0 is0 ls0 cu0 ts0]. simpl in *. subst pc0.
    unfold thread_step. simpl. rewrite Hother. reflexivity.
  - destruct th1 as [pc1 ops1 am1 is1 ls1 cu1 ts1]. simpl in *. subst pc1.
    unfold thread_step. simpl. rewrite Hother. reflexivity.
Qed.

Lemma lone_contender_enters_witness :
  at_pc (thread_of (step 0 3%Q (run (replicate 5 (0, 0%Q))
                                    (initial [1] [1]))) 0) = L51.
Proof.
  apply (lone_contender_enters [1] [1] (replicate 5 (0, 0%Q)) 0 3%Q).
  - exact valid_0.
  - reflexivity.
  - reflexivity.
Defined.

Lemma logged_snoc lg e :
  logged (lg ++ [e]) =
    logged lg + match log_amount e with PyInt n => n | PyNone => 0 end.
Proof. rewrite logged_app. simpl. lia. Qed.

Lemma counter_logged_step total who now c :
  inv c → accounted total c →
  SharedResource.value (shared c) =
    logged (SharedResource.access_log (shared c))
    + unlogged (thread0 c) + unlogged (thread1 c) →
  SharedResource.value (shared (step who now c)) =
    logged (SharedResource.access_log (shared (step who now c)))
    + unlogged (thread0 (step who now c))
    + unlogged (thread1 (step who now c)).
Proof.
  intros _ (Hcur0 & Hcur1 & _) Hk.
  destruct c as [[v l lg] th0 th1]. simpl in *.
  unfold step. destruct (Z.eqb_spec who 0) as [-> | _];
    [|destruct (Z.eqb_spec who 1) as [-> | _]]; [| |exact Hk].
  - destruct th0 as [pc0 ops0 am0 is0 ls0 cu0 ts0].
    unfold unlogged in *. simpl in *.
    destruct pc0 as [| | | | | | | | | | | | | | | | | | | raised | |];
      unfold thread_step; simpl in *; branch; simpl;
      rewrite ?logged_snoc; simpl;
      try (specialize (Hcur0 eq_refl)); lia.
  - destruct th1 as [pc1 ops1 am1 is1 ls1 cu1 ts1].
    unfold unlogged in *. simpl in *.
    destruct pc1 as [| | | | | | | | | | | | | | | | | | | raised | |];
      unfold thread_step; simpl in *; branch; simpl;
      rewrite ?logged_snoc; simpl;
      try (specialize (Hcur1 eq_refl)); lia.
Qed.

Lemma counter_logged_run total schedule :
  ∀ c,
  inv c → accounted total c →
  SharedResource.value (shared c) =
    logged (SharedResource.access_log (shared c))
    + unlogged (thread0 c) + unlogged (thread1 c) →
  SharedResource.value (shared (run schedule c)) =
    logged (SharedResource.access_log (shared (run schedule c)))
    + unlogged (thread0 (run schedule c))
    + unlogged (thread1 (run schedule c)).
Proof.
  induction schedule as [|[who now] schedule IH]; intros c Hi Ha Hk;
    [exact Hk|].
  simpl. apply IH;
    [apply inv_step, Hi | apply accounted_step; assumption
    | eapply counter_logged_step; eassumption].
Qed.

(** X10. Under every schedule, timeouts or not, the counter is the sum of
    the amounts in the access log plus the amount of each thread that has
    written the counter and not yet appended its entry. When neither thread
    is between these two lines, in particular at the end, the counter
    equals the sum of the logged amounts. *)
Theorem counter_is_logged_under_interleaving
    (operations0 operations1 : list Z) (schedule : list (Z * Q)) :
  let c := run schedule (initial operations0 operations1) in
  SharedResource.value (shared c) =
    logged (SharedResource.access_log (shared c))
    + unlogged (thread0 c) + unlogged (thread1 c).
Proof.
  simpl.
  apply (counter_logged_run (sum_list operations0 + sum_list operations1));
    [apply inv_initial | apply accounted_initial | reflexivity].
Qed.

(** X11. The two thread tests of the source pass under every schedule in
    which both threads run to their end and no acquisition times out: the
    counter then holds the sum of all the operations, which is the expected
    value of [test_basic_functionality] (6) and of
    [test_different_increments] (15). *)
Theorem thread_tests_pass (operations0 operations1 : list Z) (expected : Z)
    (schedule : list (Z * Q)) (b : bool) :
  let c := run schedule (initial operations0 operations1) in
  let st := PetersonLock.stats (SharedResource.lock (shared c)) in
  expected = sum_list operations0 + sum_list operations1 →
  test_threads operations0 operations1 expected schedule = Some b →
  fails_in st 0 = 0 → fails_in st 1 = 0 →
  b = true.
Proof.
  intros c st -> Htest Hf0 Hf1. unfold test_threads in Htest.
  fold c in Htest.
  destruct (at_pc (thread0 c)) eqn:Hd0; try discriminate Htest.
  destruct (at_pc (thread1 c)) eqn:Hd1; try discriminate Htest.
  injection Htest as <-. apply Z.eqb_eq.
  apply (interleaved_increments_sum operations0 operations1 schedule);
    assumption.
Qed.

Lemma thread_tests_pass_witness :
  test_basic_functionality (concat (replicate 100 [(0, 0%Q); (1, 0%Q)]))
    = Some true ∧
  test_different_increments (concat (replicate 100 [(1, 0%Q); (0, 0%Q)]))
    = Some true.
Proof.
  assert (∀ ops0 ops1 e s b,
            e = sum_list ops0 + sum_list ops1 →
            test_threads ops0 ops1 e s = Some b →
            fails_in (PetersonLock.stats
                        (SharedResource.lock
                           (shared (run s (initial ops0 ops1))))) 0 = 0 →
            fails_in (PetersonLock.stats
                        (SharedResource.lock
                           (shared (run s (initial ops0 ops1))))) 1 = 0 →
            test_threads ops0 ops1 e s = Some true) as Hpass.
  { intros ops0 ops1 e s b He Ht Hf0 Hf1.
    rewrite Ht. f_equal.
    exact (thread_tests_pass ops0 ops1 e s b He Ht Hf0 Hf1). }
  split.
  - eapply (Hpass [1; 1; 1] [1; 1; 1] 6); [reflexivity | | |];
      vm_compute; reflexivity.
  - eapply (Hpass [2; 3; 4] [1; 2; 3] 15); [reflexivity | | |];
      vm_compute; reflexivity.
Defined.

Lemma count_by_snoc p lg e :
  count_by p (lg ++ [e]) =
    count_by p lg + (if log_process_id e =? p then 1 else 0).
Proof. induction lg as [|x lg IH]; simpl; [lia|]. rewrite IH. lia. Qed.

Lemma entries_logged_step total who now c :
  accounted total c →
  (let st := PetersonLock.stats (SharedResource.lock (shared c)) in
   let lg := SharedResource.access_log (shared c) in
   entries_in st 0 = count_by 0 lg + entered_unlogged (thread0 c) ∧
   entries_in st 1 = count_by 1 lg + entered_unlogged (thread1 c)) →
  (let c' := step who now c in
   let st := PetersonLock.stats (SharedResource.lock (shared c')) in
   let lg := SharedResource.access_log (shared c') in
   entries_in st 0 = count_by 0 lg + entered_unlogged (thread0 c') ∧
   entries_in st 1 = count_by 1 lg + entered_unlogged (thread1 c')).
Proof.
  intros (_ & _ & _ & _ & s0 & s1 & Hs0 & Hs1 & _) [He0 He1].
  destruct c as [[v [fl tn st tmo] lg] th0 th1].
  unfold entries_in in *. simpl in *. rewrite Hs0 in He0. rewrite Hs1 in He1.
  simpl in He0, He1.
  unfold step. destruct (Z.eqb_spec who 0) as [-> | _];
    [|destruct (Z.eqb_spec who 1) as [-> | _]].
  - destruct th0 as [pc0 ops0 am0 is0 ls0 cu0 ts0].
    unfold entered_unlogged in *. simpl in *.
    destruct pc0 as [| | | | | | | | | | | | | | | | | | | raised | |];
      unfold thread_step; simpl in *; branch; simpl;
      rewrite ?count_by_snoc, ?lookup_alter_eq, ?lookup_alter_ne, ?Hs0, ?Hs1
        by done; simpl; split; lia.
  - destruct th1 as [pc1 ops1 am1 is1 ls1 cu1 ts1].
    unfold entered_unlogged in *. simpl in *.
    destruct pc1 as [| | | | | | | | | | | | | | | | | | | raised | |];
      unfold thread_step; simpl in *; branch; simpl;
      rewrite ?count_by_snoc, ?lookup_alter_eq, ?lookup_alter_ne, ?Hs0, ?Hs1
        by done; simpl; split; lia.
  - simpl. rewrite Hs0, Hs1. simpl. done.
Qed.

(** X19. Under every schedule the statistics agree with the access log:
    [entries] of an identity is the number of log entries of that identity,
    plus one while its thread has been counted at line 51 and has not yet
    appended its entry. At the end of a run, [entries] of each identity is
    the number of its entries in the log. *)
Theorem entries_match_log_under_interleaving
    (operations0 operations1 : list Z) (schedule : list (Z * Q)) :
  let c := run schedule (initial operations0 operations1) in
  let st := PetersonLock.stats (SharedResource.lock (shared c)) in
  let lg := SharedResource.access_log (shared c) in
  entries_in st 0 = count_by 0 lg + entered_unlogged (thread0 c) ∧
  entries_in st 1 = count_by 1 lg + entered_unlogged (thread1 c).
Proof.
  simpl.
  assert (∀ c,
    inv c →
    accounted (sum_list operations0 + sum_list operations1) c →
    (entries_in (PetersonLock.stats (SharedResource.lock (shared c))) 0 =
       count_by 0 (SharedResource.access_log (shared c))
       + entered_unlogged (thread0 c) ∧
     entries_in (PetersonLock.stats (SharedResource.lock (shared c))) 1 =
       count_by 1 (SharedResource.access_log (shared c))
       + entered_unlogged (thread1 c)) →
    (entries_in (PetersonLock.stats
                   (SharedResource.lock (shared (run schedule c)))) 0 =
       count_by 0 (SharedResource.access_log (shared (run schedule c)))
       + entered_unlogged (thread0 (run schedule c)) ∧
     entries_in (PetersonLock.stats
                   (SharedResource.lock (shared (run schedule c)))) 1 =
       count_by 1 (SharedResource.access_log (shared (run schedule c)))
       + entered_unlogged (thread1 (run schedule c)))) as Hrun.
  { induction schedule as [|[who now] schedule IH]; intros c Hi Ha He;
      [exact He|].
    simpl. apply IH;
      [apply inv_step, Hi | apply accounted_step; assumption|].
    exact (entries_logged_step _ who now c Ha He). }
  apply Hrun; [apply inv_initial | apply accounted_initial|].
  split; reflexivity.
Qed.

End ThreadProperties.

(** * The plain variant *)

Section BasicCalls.
Import Basic.

Ltac run_basic :=
  repeat (cbv [mbind M_bind bind mret M_ret ret raise gets modify emit
               time_sleep stuck zoom SharedResource.on_lock
               PetersonLock.get_flag PetersonLock.set_flag
               PetersonLock.get_turn PetersonLock.set_turn];
          change (1 - 0) with 1; change (1 - 1) with 0;
          rewrite ?py_index_0, ?py_index_1;
          cbn).

Lemma py_index_out {A} (a b : A) i :
  i < -2 ∨ 1 < i → py_index [a; b] i = None.
Proof.
  intros H. unfold py_index. cbn [length]. cbv zeta.
  change (Z.of_nat 2) with 2.
  repeat match goal with
         | |- context [?x <=? ?y] => destruct (Z.leb_spec x y)
         | |- context [?x <? ?y] => destruct (Z.ltb_spec x y)
         end; simpl; try reflexivity; lia.
Qed.

Lemma two_cells (l : list bool) : length l = 2%nat → ∃ a b, l = [a; b].
Proof. destruct l as [|a [|b [|]]]; intros [=]. eauto. Qed.

(** X12. The plain [lock] does not check the identity. On a lock with its
    two flags, every identity other than 0 and 1 ends in an [IndexError];
    for 2 and above and for -3 and below nothing has been written, but -1
    and -2 are accepted as indices from the end: the call has by then set
    the flag of 1 or 0 and put the out-of-range value [1 - process_id] into
    [turn]. *)
Theorem basic_lock_unchecked_identity (polls : nat) (process_id : Z)
    (s : PetersonLock.t) (clk : list Q) (tr : list event) :
  length (PetersonLock.flag s) = 2%nat →
  ¬ valid process_id →
  ∃ w',
    PetersonLock.lock polls process_id (mkWorld s clk tr) =
      Some (Raise IndexError, w') ∧
    (process_id < -2 ∨ 1 < process_id → w' = mkWorld s clk tr) ∧
    (-2 ≤ process_id < 0 →
     PetersonLock.flag (obj w') =
       <[Z.to_nat (process_id + 2) := true]> (PetersonLock.flag s) ∧
     PetersonLock.turn (obj w') = 1 - process_id).
Proof.
  intros Hlen Hn. destruct (two_cells _ Hlen) as (a & b & Hab).
  destruct s as [fl tn]. simpl in Hab. subst fl.
  assert (process_id = -1 ∨ process_id = -2 ∨
          (process_id < -2 ∨ 1 < process_id)) as [-> | [-> | Hout]].
  { unfold valid in Hn. lia. }
  - eexists. split; [destruct polls; reflexivity|].
    split; [lia|]. intros _. split; reflexivity.
  - eexists. split; [destruct polls; reflexivity|].
    split; [lia|]. intros _. split; reflexivity.
  - exists (mkWorld (PetersonLock.mk [a; b] tn) clk tr). split.
    + unfold PetersonLock.lock, PetersonLock.set_flag.
      cbv [mbind M_bind bind gets]. cbn [obj PetersonLock.flag].
      rewrite py_index_out by done. reflexivity.
    + split; [done | lia].
Qed.

Lemma basic_lock_unchecked_identity_witness :
  ∃ w',
    PetersonLock.lock 3 (-1) (mkWorld PetersonLock.init [] []) =
      Some (Raise IndexError, w') ∧
    PetersonLock.flag (obj w') = [false; true] ∧
    PetersonLock.turn (obj w') = 2.
Proof.
  destruct (basic_lock_unchecked_identity 3 (-1) PetersonLock.init [] []
              eq_refl) as (w' & Hrun & _ & Hset).
  { intros [H | H]; discriminate H. }
  exists w'. split; [exact Hrun|]. apply Hset. lia.
Defined.

(** X13. The plain [unlock] does not check the identity either: on a lock
    with its two flags, [unlock(-1)] lowers the flag of identity 1 and
    [unlock(-2)] the flag of identity 0, and return normally; any other
    identity outside 0 and 1 ends in an [IndexError] with nothing
    written. *)
Theorem basic_unlock_unchecked_identity (process_id : Z)
    (s : PetersonLock.t) (clk : list Q) (tr : list event) :
  length (PetersonLock.flag s) = 2%nat →
  ¬ valid process_id →
  (-2 ≤ process_id < 0 →
   PetersonLock.unlock process_id (mkWorld s clk tr) =
     Some (Return tt,
           mkWorld (PetersonLock.mk
                      (<[Z.to_nat (process_id + 2) := false]>
                         (PetersonLock.flag s))
                      (PetersonLock.turn s))
                   clk (tr ++ [EvSetFlag process_id false]))) ∧
  (process_id < -2 ∨ 1 < process_id →
   PetersonLock.unlock process_id (mkWorld s clk tr) =
     Some (Raise IndexError, mkWorld s clk tr)).
Proof.
  intros Hlen Hn. destruct (two_cells _ Hlen) as (a & b & Hab).
  destruct s as [fl tn]. simpl in Hab. subst fl. split.
  - intros Hr. assert (process_id = -1 ∨ process_id = -2) as [-> | ->]
      by lia; reflexivity.
  - intros Hout. unfold PetersonLock.unlock, PetersonLock.set_flag.
    cbv [mbind M_bind bind gets]. cbn [obj PetersonLock.flag].
    rewrite py_index_out by done. reflexivity.
Qed.

Lemma basic_unlock_unchecked_identity_witness :
  PetersonLock.unlock (-1)
      (mkWorld (PetersonLock.mk [true; true] 0) [] []) =
    Some (Return tt,
          mkWorld (PetersonLock.mk [true; false] 0) []
                  [EvSetFlag (-1) false]).
Proof.
  destruct (basic_unlock_unchecked_identity (-1)
              (PetersonLock.mk [true; true] 0) [] [] eq_refl)
    as [Hneg _].
  { intros [H | H]; discriminate H. }
  apply Hneg. lia.
Defined.

Lemma busy_wait_spins polls :
  ∀ p a b clk tr,
  valid p →
  [a; b] !! Z.to_nat (1 - p) = Some true →
  PetersonLock.busy_wait polls (1 - p)
      (mkWorld (PetersonLock.mk [a; b] (1 - p)) clk tr) = None.
Proof.
  induction polls as [|polls IH]; intros p a b clk tr Hp Hf.
  - destruct Hp as [-> | ->]; simpl in Hf; injection Hf as ->; reflexivity.
  - destruct Hp as [-> | ->]; simpl in Hf; injection Hf as ->.
    + run_basic. apply (IH 0); [left; done | done].
    + run_basic. apply (IH 1); [right; done | done].
Qed.

(** X14. The plain [lock] of identity 0 or 1, run alone on a lock with its
    two flags: when the other flag is down it returns at once, with its own
    flag set and [turn] the other identity; when the other flag is set it
    never returns, however many polls it is given: there is no timeout. *)
Theorem basic_lock_alone (polls : nat) (process_id : Z)
    (s : PetersonLock.t) (clk : list Q) (tr : list event) :
  length (PetersonLock.flag s) = 2%nat →
  valid process_id →
  let other := 1 - process_id in
  (PetersonLock.flag s !! Z.to_nat other = Some false →
   PetersonLock.lock polls process_id (mkWorld s clk tr) =
     Some (Return tt,
           mkWorld (PetersonLock.mk
                      (<[Z.to_nat process_id := true]>
                         (PetersonLock.flag s)) other)
                   clk
                   (tr ++ [EvSetFlag process_id true; EvSetTurn other;
                           EvGetFlag other false]))) ∧
  (PetersonLock.flag s !! Z.to_nat other = Some true →
   PetersonLock.lock polls process_id (mkWorld s clk tr) = None).
Proof.
  intros Hlen Hp other. subst other.
  destruct (two_cells _ Hlen) as (a & b & Hab).
  destruct s as [fl tn]. simpl in Hab. subst fl. simpl. split; intros Hf.
  - destruct Hp as [-> | ->]; simpl in Hf; injection Hf as ->;
      destruct polls; unfold PetersonLock.lock; run_basic;
      rewrite <- ?app_assoc; reflexivity.
  - destruct Hp as [-> | ->]; simpl in Hf; injection Hf as ->.
    + unfold PetersonLock.lock. run_basic.
      apply (busy_wait_spins polls 0); [left; done | done].
    + unfold PetersonLock.lock. run_basic.
      apply (busy_wait_spins polls 1); [right; done | done].
Qed.

Lemma basic_lock_alone_witness :
  PetersonLock.lock 1000 0
      (mkWorld (PetersonLock.mk [false; true] 0) [] []) = None.
Proof.
  destruct (basic_lock_alone 1000 0 (PetersonLock.mk [false; true] 0) [] []
              eq_refl valid_0) as [_ Hspin].
  apply Hspin. reflexivity.
Defined.

Lemma basic_increment_free polls p r clk tr :
  valid p →
  PetersonLock.flag (SharedResource.lock r) = [false; false] →
  SharedResource.increment polls p (mkWorld r clk tr) =
    Some (Return tt,
          mkWorld (SharedResource.mk (SharedResource.value r + 1)
                     (PetersonLock.mk [false; false] (1 - p)))
                  clk
                  (tr ++ [EvSetFlag p true; EvSetTurn (1 - p);
                          EvGetFlag (1 - p) false;
                          EvGetValue (SharedResource.value r);
                          EvSleep (1 # 10);
                          EvSetValue (SharedResource.value r + 1);
                          EvSetFlag p false])).
Proof.
  intros Hp Hfl. destruct r as [v [fl tn]]. simpl in *. subst fl.
  destruct Hp as [-> | ->]; destruct polls;
    unfold SharedResource.increment, PetersonLock.lock,
      PetersonLock.unlock; run_basic;
    repeat (rewrite <- ?app_assoc; simpl); reflexivity.
Qed.

(** X15. [process_function] alone on a resource whose flags are down runs
    all its iterations without waiting: the counter grows by [iterations],
    or not at all for a negative [iterations], and both flags are down
    again at the end. *)
Theorem basic_process_function_alone (polls : nat)
    (process_id iterations : Z) (r : SharedResource.t) (clk : list Q)
    (tr : list event) :
  valid process_id →
  PetersonLock.flag (SharedResource.lock r) = [false; false] →
  ∃ w',
    process_function polls process_id iterations (mkWorld r clk tr) =
      Some (Return tt, w') ∧
    SharedResource.value (obj w') =
      SharedResource.value r + Z.max 0 iterations ∧
    PetersonLock.flag (SharedResource.lock (obj w')) = [false; false].
Proof.
  intros Hp. unfold process_function.
  replace (Z.max 0 iterations) with (Z.of_nat (Z.to_nat iterations))
    by lia.
  generalize (Z.to_nat iterations) as n. intros n. revert r tr.
  induction n as [|n IH]; intros r tr Hfl.
  - eexists. split; [reflexivity|]. simpl. split; [lia | exact Hfl].
  - edestruct (IH (SharedResource.mk (SharedResource.value r + 1)
                     (PetersonLock.mk [false; false] (1 - process_id))))
      as (w' & Hrun & Hv & Hfl'); [reflexivity|].
    exists w'. split; [|split; [|exact Hfl']].
    + simpl. cbv [mbind M_bind bind].
      rewrite basic_increment_free by done.
      cbv [time_sleep emit]. cbn [obj clock trace]. exact Hrun.
    + rewrite Hv. simpl. lia.
Qed.

Lemma basic_process_function_alone_witness :
  ∃ w',
    process_function 0 1 3 (mkWorld SharedResource.init [] []) =
      Some (Return tt, w') ∧
    SharedResource.value (obj w') =
      SharedResource.value SharedResource.init + Z.max 0 3 ∧
    PetersonLock.flag (SharedResource.lock (obj w')) = [false; false].
Proof.
  exact (basic_process_function_alone 0 1 3 SharedResource.init [] []
           valid_1 eq_refl).
Defined.

(** X16. In the plain variant a bad identity wedges the lock: [increment]
    with identity -1 or -2 ends in an [IndexError] after [lock] has set the
    flag of identity 1 or 0, nothing lowers that flag again (the counter is
    untouched and there is no clean-up), and from then on [lock] of the
    other identity, run alone, never returns. *)
Theorem basic_bad_identity_wedges_lock (polls polls' : nat)
    (process_id : Z) (r : SharedResource.t) (clk clk' : list Q)
    (tr tr' : list event) :
  length (PetersonLock.flag (SharedResource.lock r)) = 2%nat →
  -2 ≤ process_id < 0 →
  ∃ w',
    SharedResource.increment polls process_id (mkWorld r clk tr) =
      Some (Raise IndexError, w') ∧
    SharedResource.value (obj w') = SharedResource.value r ∧
    PetersonLock.flag (SharedResource.lock (obj w'))
      !! Z.to_nat (process_id + 2) = Some true ∧
    PetersonLock.lock polls' (-1 - process_id)
        (mkWorld (SharedResource.lock (obj w')) clk' tr') = None.
Proof.
  intros Hlen Hr. destruct (two_cells _ Hlen) as (a & b & Hab).
  destruct r as [v [fl tn]]. simpl in Hab. subst fl.
  assert (process_id = -1 ∨ process_id = -2) as [-> | ->] by lia.
  - eexists. split; [destruct polls; reflexivity|]. simpl.
    split; [reflexivity|]. split; [reflexivity|].
    unfold PetersonLock.lock. run_basic.
    apply (busy_wait_spins polls' 0); [left; done | done].
  - eexists. split; [destruct polls; reflexivity|]. simpl.
    split; [reflexivity|]. split; [reflexivity|].
    unfold PetersonLock.lock. run_basic.
    apply (busy_wait_spins polls' 1); [right; done | done].
Qed.

Lemma basic_bad_identity_wedges_lock_witness :
  ∃ w',
    SharedResource.increment 5 (-1) (mkWorld SharedResource.init [] []) =
      Some (Raise IndexError, w') ∧
    SharedResource.value (obj w') = 0 ∧
    PetersonLock.lock 1000 0
        (mkWorld (SharedResource.lock (obj w')) [] []) = None.
Proof.
  destruct (basic_bad_identity_wedges_lock 5 1000 (-1) SharedResource.init
              [] [] [] [] eq_refl) as (w' & Hrun & Hv & _ & Hspin); [lia|].
  exists w'. split; [exact Hrun|]. split; [exact Hv | exact Hspin].
Defined.

End BasicCalls.

Section BasicThreads.
Import Basic Basic.Threads.

Ltac branch :=
  repeat match goal with
         | |- context [match ?n with O => _ | Datatypes.S _ => _ end] =>
             destruct n eqn:?
         | |- context [if ?b then _ else _] => destruct b eqn:?
         end.

Lemma basic_critical_contending p :
  in_critical_section p = true → contending p = true.
Proof. destruct p; done. Qed.

Lemma basic_inv_initial iterations0 iterations1 :
  inv (Z.max 0 iterations0 + Z.max 0 iterations1)
      (initial iterations0 iterations1).
Proof.
  unfold inv, initial, todo. simpl.
  repeat split; try discriminate; try (left; reflexivity);
    try (intros [H | H]; discriminate H).
  lia.
Qed.

Lemma basic_contending_raised p :
  contending p = true → flag_raised p = true.
Proof. destruct p; done. Qed.

Ltac basic_case :=
  unfold thread_step; simpl in *;
  change (Z.to_nat (1 - 0)) with 1%nat; change (1 - 0) with 1;
  change (Z.to_nat (1 - 1)) with 0%nat; change (1 - 1) with 0;
  change (Z.to_nat 0) with 0%nat; change (Z.to_nat 1) with 1%nat;
  simpl; branch;
  unfold inv, todo; simpl;
  repeat match goal with
         | H : ?x = ?x → _ |- _ => specialize (H eq_refl)
         | H : false = true → _ |- _ => clear H
         end;
  repeat split; intros; try discriminate; try reflexivity;
  try congruence;
  try match goal with
      | H : at_pc ?t = _ ∨ at_pc ?t = _ |- _ =>
          destruct H as [H | H]; rewrite H in *; simpl in *
      end;
  try solve [intuition (lia || congruence)].

Lemma basic_inv_step total who c : inv total c → inv total (step who c).
Proof.
  intros (Hfl & Hturn & Hc0 & Hc1 & Hcur0 & Hcur1 & Hsum & Hr0 & Hr1).
  destruct c as [[v [fl tn]] th0 th1]. simpl in *. subst fl.
  unfold step. destruct (Z.eqb_spec who 0) as [-> | _];
    [|destruct (Z.eqb_spec who 1) as [-> | _]].
  - pose proof (basic_critical_contending (at_pc th1)) as Hcc.
    pose proof (basic_contending_raised (at_pc th1)) as Hcr.
    destruct th0 as [pc0 n0 cu0]. unfold todo in Hsum. simpl in *.
    destruct (in_critical_section (at_pc th1)) eqn:Ecs,
             (contending (at_pc th1)) eqn:Ect,
             (flag_raised (at_pc th1)) eqn:Efr;
      try (specialize (Hcc eq_refl)); try (specialize (Hcr eq_refl));
      try discriminate.
    all: destruct pc0; basic_case.
  - pose proof (basic_critical_contending (at_pc th0)) as Hcc.
    pose proof (basic_contending_raised (at_pc th0)) as Hcr.
    destruct th1 as [pc1 n1 cu1]. unfold todo in Hsum. simpl in *.
    destruct (in_critical_section (at_pc th0)) eqn:Ecs,
             (contending (at_pc th0)) eqn:Ect,
             (flag_raised (at_pc th0)) eqn:Efr;
      try (specialize (Hcc eq_refl)); try (specialize (Hcr eq_refl));
      try discriminate.
    all: destruct pc1; basic_case.
  - unfold inv. simpl. repeat split; assumption.
Qed.

Lemma basic_inv_run total schedule :
  ∀ c, inv total c → inv total (run schedule c).
Proof.
  induction schedule as [|who schedule IH]; intros c Hc; [exact Hc|].
  simpl. apply IH, basic_inv_step, Hc.
Qed.

(** X17. Mutual exclusion in the plain variant: whatever the numbers of
    iterations of the two threads and however the scheduler interleaves
    their accesses to shared memory, in no configuration they reach are
    both threads between the exit of the wait loop of [lock] and the write
    of [unlock]. *)
Theorem basic_mutual_exclusion (iterations0 iterations1 : Z)
    (schedule : list Z) :
  let c := run schedule (initial iterations0 iterations1) in
  ¬ (in_critical_section (at_pc (thread0 c)) = true ∧
     in_critical_section (at_pc (thread1 c)) = true).
Proof.
  intros c [Hcs0 Hcs1].
  destruct (basic_inv_run _ schedule _
              (basic_inv_initial iterations0 iterations1))
    as (_ & _ & Hc0 & Hc1 & _).
  fold c in Hc0, Hc1.
  pose proof (Hc0 Hcs0 (basic_critical_contending _ Hcs1)).
  pose proof (Hc1 Hcs1 (basic_critical_contending _ Hcs0)).
  congruence.
Qed.

(** X18. No increment is lost in the plain variant: under every schedule
    that runs both threads to their end, the counter holds the number of
    iterations of the first thread plus that of the second (a negative
    number of iterations counting as none). *)
Theorem basic_increments_all_counted (iterations0 iterations1 : Z)
    (schedule : list Z) :
  let c := run schedule (initial iterations0 iterations1) in
  at_pc (thread0 c) = Done → at_pc (thread1 c) = Done →
  SharedResource.value (shared c) =
    Z.max 0 iterations0 + Z.max 0 iterations1.
Proof.
  intros c Hd0 Hd1.
  destruct (basic_inv_run _ schedule _
              (basic_inv_initial iterations0 iterations1))
    as (_ & _ & _ & _ & _ & _ & Hsum & Hr0 & Hr1).
  fold c in Hsum, Hr0, Hr1. unfold todo in Hsum.
  rewrite (Hr0 Hd0), (Hr1 Hd1), Hd0, Hd1 in Hsum. simpl in Hsum. lia.
Qed.

Lemma basic_increments_all_counted_witness :
  SharedResource.value
    (shared (run (concat (replicate 60 [0; 1])) (initial 3 3))) =
  Z.max 0 3 + Z.max 0 3.
Proof.
  apply (basic_increments_all_counted 3 3 (concat (replicate 60 [0; 1])));
    vm_compute; reflexivity.
Defined.

(** While thread 0 sleeps in its critical section, thread 1 spins in the
    wait loop. *)
Example basic_thread1_spins :
  let c := run (replicate 6 0 ++ replicate 9 1) (initial 1 1) in
  at_pc (thread0 c) = B38 ∧ contending (at_pc (thread1 c)) = true ∧
  in_critical_section (at_pc (thread1 c)) = false.
Proof. vm_compute. done. Qed.

End BasicThreads.
